(** * parser-js: comment/node association, shallow embedding

    Embedding of [packages/parser-js/src/index.js]: the sort-key builder
    ([leftPad]), the comment deduplicator and constructor-merge resolver
    ([_addComment]) and the orchestrator ([parseJavaScript]). *)

From Stdlib Require Import ZArith Ascii String Lia.
From stdpp Require Import gmap strings list sorting.

Set Warnings "-register-all".

Local Open Scope Z_scope.

(** ** JavaScript primitives used by the module *)

Module Js.

(** Decimal digit [d] (0..9) as a character. *)
Definition digit_char (d : Z) : ascii := ascii_of_nat (48 + Z.to_nat d).

(** Digits of a non-negative integer, least significant digit produced
    first and pushed in front of [acc]. *)
Fixpoint digits_loop (fuel : nat) (n : Z) (acc : string) : string :=
  match fuel with
  | O => acc
  | S f =>
      let acc' := String (digit_char (n mod 10)) acc in
      if n / 10 =? 0 then acc' else digits_loop f (n / 10) acc'
  end.

(** [Number.prototype.toString] on an integer: decimal, with a leading
    minus sign for negative numbers.  The fuel [1 + log2 |n|] bounds the
    number of decimal digits. *)
Definition Number_toString (n : Z) : string :=
  if n <? 0
  then String "-" (digits_loop (S (Z.to_nat (Z.log2 (- n)))) (- n) EmptyString)
  else digits_loop (S (Z.to_nat (Z.log2 n))) n EmptyString.

(** [String.prototype.substring(a, b)]: both indices are clamped to
    [0, length], and swapped when [a > b]. *)
Definition clamp (len i : Z) : Z := Z.max 0 (Z.min i len).

Definition substring (s : string) (a b : Z) : string :=
  let len := Z.of_nat (String.length s) in
  let a' := clamp len a in
  let b' := clamp len b in
  let lo := Z.min a' b' in
  let hi := Z.max a' b' in
  String.substring (Z.to_nat lo) (Z.to_nat (hi - lo)) s.

End Js.

(** ** Sort-key builder *)

(** The [while (str.length < width) str = '0' + str] loop.  Each turn
    re-tests the guard; [fuel] bounds the number of turns. *)
Fixpoint leftPad_loop (fuel : nat) (str : string) (width : nat) : string :=
  match fuel with
  | O => str
  | S f =>
      if (String.length str <? width)%nat
      then leftPad_loop f (String "0" str) width
      else str
  end.

(** [leftPad(str, width)] for a numeric [str]: [str.toString()] and then
    the padding loop, which runs at most [width] times. *)
Definition leftPad (str : Z) (width : nat) : string :=
  leftPad_loop width (Js.Number_toString str) width.

(** [data.sortKey + ' ' + leftPad(nodeLoc.start.line, 8)] *)
Definition make_sortKey (base : string) (line : Z) : string :=
  (base ++ " " ++ leftPad line 8)%string.

(** ** Syntax-tree data handed in by the tree walker *)

Record Position := { line : Z; column : Z }.

Record SourceLocation := { start : Position; finish : Position }.

(** A syntax node.  [node_id] stands for the identity of the JavaScript
    object: the association map is keyed by node objects. *)
Record Node := {
  node_id : N;
  node_type : string;
  kind : option string;
  node_start : Z;
  node_end : Z
}.

(** A babel node path: [path.node] and [path.parentPath], either of which
    may be missing. *)
Inductive NodePath := MkNodePath {
  node : option Node;
  parentPath : option NodePath
}.

(** The module-deps item: [data.file], [data.source], [data.sortKey]. *)
Record Data := { file : string; source : string; sortKey : string }.

Record DocumentationConfig := { documentExported : bool }.

(** ** The context object *)

Inductive Value :=
| VLoc (l : SourceLocation)
| VString (s : string)
| VPath (p : NodePath).

(** A property with its descriptor. *)
Record Property := {
  value : Value;
  enumerable : bool;
  configurable : bool;
  writable : bool
}.

(** An object is its list of own properties in creation order. *)
Definition Object := list (string * Property).

(** A property created by an object literal or by plain assignment. *)
Definition plain (v : Value) : Property :=
  {| value := v; enumerable := true; configurable := true; writable := true |}.

Definition get_property (o : Object) (k : string) : option Property :=
  snd <$> List.find (fun kv => String.eqb (fst kv) k) o.

(** [Object.defineProperty(o, k, desc)] with a complete descriptor; the
    module only defines a property the object does not have yet. *)
Definition defineProperty (o : Object) (k : string) (desc : Property) : Object :=
  List.filter (fun kv => negb (String.eqb (fst kv) k)) o ++ [(k, desc)].

(** [o.k = v]: creates a plain property, or overwrites the value of an
    existing writable one. *)
Definition assign (o : Object) (k : string) (v : Value) : Object :=
  match get_property o k with
  | None => o ++ [(k, plain v)]
  | Some p =>
      if writable p
      then List.map (fun kv =>
             if String.eqb (fst kv) k
             then (k, {| value := v; enumerable := enumerable p;
                         configurable := configurable p; writable := true |})
             else kv) o
      else o
  end.

(** [Object.keys(o)]: what enumeration and JSON serialisation see. *)
Definition keys (o : Object) : list string :=
  fst <$> List.filter (fun kv => enumerable (snd kv)) o.

(** ** Comment records and the store *)

(** References to comment objects: positions in the heap. *)
Abbreviation Ref := nat.

(** What the content parser returns.  Only [lends] and [hideconstructor]
    are read by this module; [lends] is a string when the tag is there. *)
Record Parsed := {
  description : string;
  loc : SourceLocation;
  context : Object;
  lends : option string;
  hideconstructor : bool
}.

(** A comment object: the parser's fields plus the one field this module
    writes. *)
Record Comment := {
  parsed : Parsed;
  constructorComment : option Ref
}.

(** Truthiness of [comment.lends]: a missing tag and the empty string are
    falsy. *)
Definition lends_truthy (c : Comment) : bool :=
  match lends (parsed c) with
  | Some s => negb (String.eqb s "")
  | None => false
  end.

(** One invocation of the content parser: [parse(commentValue, commentLoc, context)]. *)
Record ParseCall := {
  pc_value : string;
  pc_loc : SourceLocation;
  pc_context : Object
}.

(** Everything that outlives one call of [parseJavaScript]: the heap of
    comment objects, the lines written through [debuglog] and the record
    of the content parser's invocations. *)
Record World := {
  w_heap : list Comment;
  w_diagnostics : list string;
  w_parse_calls : list ParseCall
}.

(** The state [_addComment] works on: the visited set and the association
    map it gets as its first two arguments, and the world. *)
Record Store := {
  visited : gset string;
  commentsByNode : gmap (option N) Ref;
  heap : list Comment;
  diagnostics : list string;
  parse_calls : list ParseCall
}.

Definition enter (w : World) : Store :=
  {| visited := ∅; commentsByNode := ∅; heap := w_heap w;
     diagnostics := w_diagnostics w; parse_calls := w_parse_calls w |}.

Definition leave (s : Store) : World :=
  {| w_heap := heap s; w_diagnostics := diagnostics s;
     w_parse_calls := parse_calls s |}.

(** ** State and exception monad *)

Inductive Completion (A : Type) :=
| Return (a : A)
| Throw (e : string).
Arguments Return {A} a.
Arguments Throw {A} e.

Definition M (A : Type) : Type := Store -> Completion A * Store.

#[global] Instance M_ret : MRet M := fun A a s => (Return a, s).

#[global] Instance M_bind : MBind M := fun A B f m s =>
  match m s with
  | (Return a, s') => f a s'
  | (Throw e, s') => (Throw e, s')
  end.

Definition throw {A} (e : string) : M A := fun s => (Throw e, s).

Definition visited_has (key : string) : M bool :=
  fun s => (Return (bool_decide (key ∈ visited s)), s).

Definition visited_add (key : string) : M unit :=
  fun s => (Return tt,
    {| visited := {[key]} ∪ visited s; commentsByNode := commentsByNode s;
       heap := heap s; diagnostics := diagnostics s;
       parse_calls := parse_calls s |}).

Definition commentsByNode_set (k : option N) (r : Ref) : M unit :=
  fun s => (Return tt,
    {| visited := visited s; commentsByNode := <[k := r]> (commentsByNode s);
       heap := heap s; diagnostics := diagnostics s;
       parse_calls := parse_calls s |}).

Definition commentsByNode_get (k : option N) : M (option Ref) :=
  fun s => (Return (commentsByNode s !! k), s).

(** [debuglog(msg)]: the line handed to [util.debuglog('documentation')]. *)
Definition debuglog (msg : string) : M unit :=
  fun s => (Return tt,
    {| visited := visited s; commentsByNode := commentsByNode s;
       heap := heap s; diagnostics := diagnostics s ++ [msg];
       parse_calls := parse_calls s |}).

(** Reading a field of a comment object. *)
Definition read_comment (r : Ref) : M Comment :=
  fun s => match heap s !! r with
           | Some c => (Return c, s)
           | None => (Throw "TypeError", s)
           end.

(** [parentComment.constructorComment = comment] *)
Definition with_constructorComment (r : Ref) (c : Comment) : Comment :=
  {| parsed := parsed c; constructorComment := Some r |}.

Definition set_constructorComment (parentComment comment : Ref) : M unit :=
  fun s => (Return tt,
    {| visited := visited s; commentsByNode := commentsByNode s;
       heap := alter (with_constructorComment comment) parentComment (heap s);
       diagnostics := diagnostics s; parse_calls := parse_calls s |}).

(** Property access on a value that may be [null] or [undefined]. *)
Definition member {A} (o : option A) : M A :=
  match o with
  | Some a => mret a
  | None => throw "TypeError"
  end.

(** [xs.map(f)] with an effectful [f], left to right. *)
Fixpoint mapM {A B} (f : A -> M B) (xs : list A) : M (list B) :=
  match xs with
  | [] => mret []
  | x :: xs' => y ← f x; ys ← mapM f xs'; mret (y :: ys)
  end.

(** [_.flatMap(xs, f)]: maps left to right and flattens one level. *)
Definition flatMap {A B} (xs : list A) (f : A -> M (list B)) : M (list B) :=
  yss ← mapM f xs; mret (concat yss).

(** ** The module *)

(** One comment found by the tree walker on a node: the arguments
    [comment.value, comment.loc, path, path.node.loc] of the callback. *)
Record Discovery := {
  d_value : string;
  d_loc : SourceLocation;
  d_path : NodePath;
  d_nodeLoc : SourceLocation
}.

(** One complete invocation of the callback, as made by the
    exported-symbols walker. *)
Record Call := {
  c_data : Data;
  c_found : Discovery;
  c_includeContext : bool
}.

Section ParserJs.

(** Collaborators that live outside this file. *)

(** [require('./parse')]: the content parser. *)
Variable parse : string -> SourceLocation -> Object -> Parsed.

(** [require('./infer/finders').findTarget]; the result may be falsy. *)
Variable findTarget : NodePath -> option NodePath.

(** [t.isClassMethod] of babel-types, applied to a path. *)
Variable isClassMethod : NodePath -> bool.

(** [parseToAst] of [./parse_to_ast]; it throws on unparseable source. *)
Variable Ast : Type.
Variable parseToAst : string -> Completion Ast.

(** Modelled from the spec: the traversal of [./extractors/comments] is
    missing; a strategy visits the tree and finds, per comment category,
    a sequence of comments, each with the path it is attached to. *)
Variable discovered : string -> Ast -> list Discovery.

(** Modelled from the spec: the traversal of [./extractors/exported] is
    missing; it finds the comments of exported declarations and decides
    the callback's arguments for each. *)
Variable exported : Ast -> Data -> list Call.

(** The call [parse(commentValue, commentLoc, context)]: the parser is
    invoked and the object it returns is new. *)
Definition call_parse (commentValue : string) (commentLoc : SourceLocation)
    (context : Object) : M Ref :=
  fun s => (Return (length (heap s)),
    {| visited := visited s; commentsByNode := commentsByNode s;
       heap := heap s ++ [{| parsed := parse commentValue commentLoc context;
                             constructorComment := None |}];
       diagnostics := diagnostics s;
       parse_calls := parse_calls s ++
         [{| pc_value := commentValue; pc_loc := commentLoc;
             pc_context := context |}] |}).

(** [data.file + ':' + commentLoc.start.line + ':' + commentLoc.start.column] *)
Definition visited_key (data : Data) (commentLoc : SourceLocation) : string :=
  (file data ++ ":" ++ Js.Number_toString (line (start commentLoc))
     ++ ":" ++ Js.Number_toString (column (start commentLoc)))%string.

(** The context object at the point where it is handed to the parser. *)
Definition build_context (data : Data) (path : NodePath)
    (nodeLoc : SourceLocation) (includeContext : bool) : Object :=
  let context :=
    [ ("loc"%string, plain (VLoc nodeLoc));
      ("file"%string, plain (VString (file data)));
      ("sortKey"%string,
        plain (VString (make_sortKey (sortKey data) (line (start nodeLoc))))) ] in
  if includeContext then
    let context :=
      defineProperty context "ast"
        {| value := VPath path; enumerable := false;
           configurable := true; writable := false |} in
    match parentPath path with
    | Some parent =>
        match node parent with
        | Some parentNode =>
            assign context "code"
              (VString (Js.substring (source data)
                          (node_start parentNode) (node_end parentNode)))
        | None => context
        end
    | None => context
    end
  else context.

(** The key under which the comment is stored:
    [(findTarget(path) || path).node]. *)
Definition target_key (path : NodePath) : option N :=
  node_id <$> node (default path (findTarget path)).

Definition constructor_note : string :=
  "A constructor was documented explicitly: document along with the class instead".

Definition _addComment (data : Data) (commentValue : string)
    (commentLoc : SourceLocation) (path : NodePath)
    (nodeLoc : SourceLocation) (includeContext : bool) : M (option Ref) :=
  let key := visited_key data commentLoc in
  seen ← visited_has key;
  if negb seen then
    visited_add key;;
    let context := build_context data path nodeLoc includeContext in
    comment ← call_parse commentValue commentLoc context;
    if includeContext then
      commentsByNode_set (target_key path) comment;;
      is_constructor ←
        (if isClassMethod path
         then n ← member (node path);
              mret (bool_decide (kind n = Some "constructor"%string))
         else mret false : M bool);
      if (is_constructor : bool) then
        c ← read_comment comment;
        (if negb (hideconstructor (parsed c))
         then debuglog constructor_note else mret tt : M unit);;
        parent ← member (parentPath path);
        grandparent ← member (parentPath parent);
        parentComment ← commentsByNode_get (node_id <$> node grandparent);
        match parentComment with
        | Some parentComment =>
            set_constructorComment parentComment comment;;
            mret None
        | None =>
            if hideconstructor (parsed c) then mret None
            else mret (Some comment)
        end
      else mret (Some comment)
    else mret (Some comment)
  else mret None.

(** The callback type: [_addComment.bind(null, visited, commentsByNode)]. *)
Definition AddComment : Type :=
  Data -> string -> SourceLocation -> NodePath -> SourceLocation -> bool ->
  M (option Ref).

(** Modelled from the spec: [walkComments(type, includeContext, ast, data,
    addComment)] of [./extractors/comments] is missing; for each comment
    it finds it invokes the callback with the comment's text and range,
    the node path, the node's range and the capture flag it was bound
    with, and it returns the callback's results in that order. *)
Definition walkComments (type : string) (includeContext : bool) (ast : Ast)
    (data : Data) (addComment : AddComment) : M (list (option Ref)) :=
  mapM (fun d => addComment data (d_value d) (d_loc d) (d_path d)
                   (d_nodeLoc d) includeContext)
       (discovered type ast).

(** Modelled from the spec: [walkExported(ast, data, addComment)] of
    [./extractors/exported] is missing; it invokes the callback once per
    comment it finds and returns the callback's results. *)
Definition walkExported (ast : Ast) (data : Data) (addComment : AddComment)
    : M (list (option Ref)) :=
  mapM (fun c => addComment (c_data c) (d_value (c_found c)) (d_loc (c_found c))
                   (d_path (c_found c)) (d_nodeLoc (c_found c))
                   (c_includeContext c))
       (exported ast data).

(** The strategies [parseJavaScript] chooses from. *)
Definition strategies (config : DocumentationConfig)
    : list (Ast -> Data -> AddComment -> M (list (option Ref))) :=
  if documentExported config
  then [walkExported]
  else [ walkComments "leadingComments" true;
         walkComments "innerComments" false;
         walkComments "trailingComments" false ].

(** The predicate of the final filter: [comment && !comment.lends].  A
    reference the callback returned always denotes an object of the heap
    ([addComment_returns_valid]); the branch for a missing object only
    makes the function total. *)
Definition keep (h : list Comment) (comment : option Ref) : bool :=
  match comment with
  | Some r =>
      match h !! r with
      | Some c => negb (lends_truthy c)
      | None => false
      end
  | None => false
  end.

(** [.filter(comment => comment && !comment.lends)], reading the comment
    objects as they are when the filter runs. *)
Definition filter_comments (results : list (option Ref)) : M (list Ref) :=
  fun s => (Return (omap id (List.filter (keep (heap s)) results)), s).

Definition lift_completion {A} (c : Completion A) : M A :=
  fun s => (c, s).

(** [parseJavaScript(data, config)]: the visited set and the association
    map are created on entry. *)
Definition parseJavaScript (data : Data) (config : DocumentationConfig)
    (w : World) : Completion (list Ref) * World :=
  let run : M (list Ref) :=
    ast ← lift_completion (parseToAst (source data));
    let addComment := _addComment in
    results ← flatMap (strategies config) (fun fn => fn ast data addComment);
    filter_comments results in
  let '(r, s) := run (enter w) in
  (r, leave s).

End ParserJs.

Arguments build_context : simpl never.
Arguments visited_key : simpl never.

(** ** Sequences of callback invocations *)

(** The store after a sequence of callback invocations, whatever each of
    them returned or threw. *)
Definition after_calls (parse : string -> SourceLocation -> Object -> Parsed)
    (findTarget : NodePath -> option NodePath) (isClassMethod : NodePath -> bool)
    (calls : list Call) (s : Store) : Store :=
  foldl (fun s c =>
           snd (_addComment parse findTarget isClassMethod (c_data c)
                  (d_value (c_found c)) (d_loc (c_found c)) (d_path (c_found c))
                  (d_nodeLoc (c_found c)) (c_includeContext c) s))
        s calls.

(** Every record the association map points to is an object of the heap. *)
Definition refs_valid (s : Store) : Prop :=
  map_Forall (fun _ r => (r < length (heap s))%nat) (commentsByNode s).

(** ** Moving a run to another place in the heap *)

(** The same comment object when all references are [base] further on. *)
Definition relocate_comment (base : nat) (c : Comment) : Comment :=
  {| parsed := parsed c;
     constructorComment := Nat.add base <$> constructorComment c |}.

Definition relocate_completion {A} (f : A -> A) (r : Completion A) : Completion A :=
  match r with
  | Return a => Return (f a)
  | Throw e => Throw e
  end.

Definition relocate_result (base : nat) (r : Completion (list Ref))
    : Completion (list Ref) :=
  relocate_completion (fmap (Nat.add base)) r.

(** The store of a run that started in world [w] instead of the empty
    world: what [w] held comes first and the run's own objects follow. *)
Definition relocate_store (w : World) (s : Store) : Store :=
  {| visited := visited s;
     commentsByNode := Nat.add (length (w_heap w)) <$> commentsByNode s;
     heap := w_heap w ++ (relocate_comment (length (w_heap w)) <$> heap s);
     diagnostics := w_diagnostics w ++ diagnostics s;
     parse_calls := w_parse_calls w ++ parse_calls s |}.

(** [m] does from the relocated store what [m0] does from the store
    itself, results related by [rel]. *)
Definition relocated (w : World) {A} (rel : A -> A) (m0 m : M A) : Prop :=
  forall s0,
    m (relocate_store w s0)
    = (relocate_completion rel (fst (m0 s0)), relocate_store w (snd (m0 s0))).

(** A context without structural handle and without source snippet. *)
Definition without_context (pc : ParseCall) : Prop :=
  get_property (pc_context pc) "ast" = None /\
  get_property (pc_context pc) "code" = None.

(** A pass that captures no context: it does not throw, it leaves the
    association map and the diagnostics alone, it hands the parser only
    contexts without [ast] and [code], it only adds comment objects (with
    no [constructorComment]) and it returns every object it added. *)
Definition captures_nothing (pass : M (list (option Ref))) : Prop :=
  forall s, exists results new_calls new_comments,
    fst (pass s) = Return results /\
    commentsByNode (snd (pass s)) = commentsByNode s /\
    diagnostics (snd (pass s)) = diagnostics s /\
    parse_calls (snd (pass s)) = parse_calls s ++ new_calls /\
    Forall without_context new_calls /\
    heap (snd (pass s)) = heap s ++ new_comments /\
    Forall (fun c => constructorComment c = None) new_comments /\
    length new_calls = length new_comments /\
    omap id results = seq (length (heap s)) (length new_comments).

(** A comment record as a consumer reads it: the parser's fields and,
    nested, the constructor's comment, followed to a given depth. *)
Inductive Doc := MkDoc {
  doc_parsed : Parsed;
  doc_constructorComment : option Doc
}.

Fixpoint read_doc (depth : nat) (h : list Comment) (r : Ref) : option Doc :=
  match depth with
  | O => None
  | S d =>
      match h !! r with
      | Some c =>
          Some {| doc_parsed := parsed c;
                  doc_constructorComment := constructorComment c ≫= read_doc d h |}
      | None => None
      end
  end.

(** What a caller of [parseJavaScript] gets to see. *)
Definition returned_docs (depth : nat) (res : Completion (list Ref) * World)
    : Completion (list (option Doc)) :=
  match fst res with
  | Return out => Return (read_doc depth (w_heap (snd res)) <$> out)
  | Throw e => Throw e
  end.

Definition empty_world : World :=
  {| w_heap := []; w_diagnostics := []; w_parse_calls := [] |}.

(** The sort key a comment was given, read back from the context the
    parser kept. *)
Definition sortKey_of (c : Comment) : option Value :=
  value <$> get_property (context (parsed c)) "sortKey".

(** ** A small concrete setting *)

Module Demo.

Local Open Scope string_scope.

(** A content parser that keeps the text and the context and recognises
    two tags. *)
Definition parse (commentValue : string) (commentLoc : SourceLocation)
    (ctx : Object) : Parsed :=
  {| description := commentValue; loc := commentLoc; context := ctx;
     lends := if String.eqb commentValue "@lends Foo" then Some "Foo" else None;
     hideconstructor := String.eqb commentValue "@hideconstructor" |}.

(** [path.node && path] *)
Definition findTarget (path : NodePath) : option NodePath :=
  match node path with
  | Some _ => Some path
  | None => None
  end.

Definition isClassMethod (path : NodePath) : bool :=
  match node path with
  | Some n => String.eqb (node_type n) "ClassMethod"
  | None => false
  end.

Record Ast := {
  leading : list Discovery;
  inner : list Discovery;
  trailing : list Discovery;
  exports : list Call
}.

Definition parseToAst (ast : Ast) (src : string) : Completion Ast := Return ast.

Definition discovered (type : string) (ast : Ast) : list Discovery :=
  if String.eqb type "leadingComments" then leading ast
  else if String.eqb type "innerComments" then inner ast
  else if String.eqb type "trailingComments" then trailing ast
  else [].

Definition exported (ast : Ast) (data : Data) : list Call := exports ast.

Definition at_line (l c : Z) : SourceLocation :=
  {| start := {| line := l; column := c |};
     finish := {| line := l; column := c + 10 |} |}.

(** [class Foo { constructor() {} }] preceded by comments. *)
Definition data : Data :=
  {| file := "foo.js";
     source := "/** Foo */ class Foo { /** ctor */ constructor() {} }";
     sortKey := "000 foo.js" |}.

Definition programNode : Node :=
  {| node_id := 0; node_type := "Program"; kind := None;
     node_start := 0; node_end := 53 |}.
Definition classNode : Node :=
  {| node_id := 1; node_type := "ClassDeclaration"; kind := None;
     node_start := 11; node_end := 53 |}.
Definition bodyNode : Node :=
  {| node_id := 2; node_type := "ClassBody"; kind := None;
     node_start := 21; node_end := 53 |}.
Definition ctorNode : Node :=
  {| node_id := 3; node_type := "ClassMethod"; kind := Some "constructor";
     node_start := 35; node_end := 51 |}.

Definition programPath : NodePath :=
  {| node := Some programNode; parentPath := None |}.
Definition classPath : NodePath :=
  {| node := Some classNode; parentPath := Some programPath |}.
Definition bodyPath : NodePath :=
  {| node := Some bodyNode; parentPath := Some classPath |}.
Definition ctorPath : NodePath :=
  {| node := Some ctorNode; parentPath := Some bodyPath |}.

Definition classDoc : Discovery :=
  {| d_value := "Foo"; d_loc := at_line 1 0; d_path := classPath;
     d_nodeLoc := at_line 1 11 |}.
Definition ctorDoc : Discovery :=
  {| d_value := "ctor"; d_loc := at_line 1 23; d_path := ctorPath;
     d_nodeLoc := at_line 1 35 |}.
Definition hiddenCtorDoc : Discovery :=
  {| d_value := "@hideconstructor"; d_loc := at_line 1 23; d_path := ctorPath;
     d_nodeLoc := at_line 1 35 |}.
Definition lendsDoc : Discovery :=
  {| d_value := "@lends Foo"; d_loc := at_line 7 0; d_path := programPath;
     d_nodeLoc := at_line 8 0 |}.
Definition lateDoc : Discovery :=
  {| d_value := "late"; d_loc := at_line 9 0; d_path := programPath;
     d_nodeLoc := at_line 10 0 |}.
Definition earlyDoc : Discovery :=
  {| d_value := "early"; d_loc := at_line 4 0; d_path := programPath;
     d_nodeLoc := at_line 5 0 |}.

Definition empty_store : Store := enter empty_world.

Definition addComment := _addComment parse findTarget isClassMethod.

Definition run (ast : Ast) (exportedOnly : bool) (w : World) :=
  parseJavaScript parse findTarget isClassMethod Ast (parseToAst ast)
    discovered exported data {| documentExported := exportedOnly |} w.

(** The class's comment as the parser returns it, and the store after the
    callback has processed it. *)
Definition classComment : Comment :=
  {| parsed := parse "Foo" (at_line 1 0)
                 (build_context data classPath (at_line 1 11) true);
     constructorComment := None |}.

Definition class_seen : Store :=
  snd (addComment data "Foo" (at_line 1 0) classPath (at_line 1 11) true empty_store).

Definition call_of (d : Discovery) (includeContext : bool) : Call :=
  {| c_data := data; c_found := d; c_includeContext := includeContext |}.

(** A documented class with a documented constructor. *)
Definition classAst : Ast :=
  {| leading := [classDoc; ctorDoc]; inner := []; trailing := []; exports := [] |}.

(** A comment marked [lends] next to an ordinary one. *)
Definition lendsAst : Ast :=
  {| leading := [lendsDoc; lateDoc]; inner := []; trailing := []; exports := [] |}.

(** A leading comment on line 10 and an inner comment on line 5. *)
Definition unsortedAst : Ast :=
  {| leading := [lateDoc]; inner := [earlyDoc]; trailing := []; exports := [] |}.

End Demo.

(** ** Fixed-width decimal numerals (specification side of the sort key) *)

(** The [k] low decimal digits of [n], most significant first. *)
Fixpoint fixed (k : nat) (n : Z) : string :=
  match k with
  | O => EmptyString
  | S k' => String (Js.digit_char (n / 10 ^ Z.of_nat k' mod 10)) (fixed k' n)
  end.

Fixpoint zeros (k : nat) : string :=
  match k with
  | O => EmptyString
  | S k' => String "0" (zeros k')
  end.

(** ** The module's entry point *)

(** The descriptor handed to the exported function: [sourceFile.source]
    may be missing. *)
Record SourceFile := {
  sf_file : string;
  sf_source : option string;
  sf_sortKey : string
}.

(** Truthiness of [sourceFile.source]: a missing text and the empty
    string are falsy. *)
Definition source_truthy (sourceFile : SourceFile) : bool :=
  match sf_source sourceFile with
  | Some text => negb (String.eqb text "")
  | None => false
  end.

Definition with_source (sourceFile : SourceFile) (text : string) : SourceFile :=
  {| sf_file := sf_file sourceFile; sf_source := Some text;
     sf_sortKey := sf_sortKey sourceFile |}.

(** The descriptor as [parseJavaScript] reads it once the text is there. *)
Definition data_of (sourceFile : SourceFile) : Data :=
  {| file := sf_file sourceFile;
     source := default EmptyString (sf_source sourceFile);
     sortKey := sf_sortKey sourceFile |}.

(** [module.exports]: fills in [sourceFile.source] from the file system
    when it is falsy, then parses.  [readFileSync] is
    [fs.readFileSync(_, 'utf8')], which may throw; the descriptor is
    returned as the caller finds it afterwards. *)
Definition module_exports
    (parse : string -> SourceLocation -> Object -> Parsed)
    (findTarget : NodePath -> option NodePath) (isClassMethod : NodePath -> bool)
    (Ast : Type) (parseToAst : string -> Completion Ast)
    (discovered : string -> Ast -> list Discovery)
    (exported : Ast -> Data -> list Call)
    (readFileSync : string -> Completion string)
    (sourceFile : SourceFile) (config : DocumentationConfig) (w : World)
    : Completion (list Ref) * World * SourceFile :=
  if source_truthy sourceFile then
    (parseJavaScript parse findTarget isClassMethod Ast parseToAst discovered
       exported (data_of sourceFile) config w, sourceFile)
  else
    match readFileSync (sf_file sourceFile) with
    | Throw e => (Throw e, w, sourceFile)
    | Return text =>
        let sourceFile := with_source sourceFile text in
        (parseJavaScript parse findTarget isClassMethod Ast parseToAst discovered
           exported (data_of sourceFile) config w, sourceFile)
    end.

(** ** Auxiliary notions for the properties *)

(** No [':'] in the string. *)
Fixpoint colon_free (s : string) : bool :=
  match s with
  | EmptyString => true
  | String c s' => negb (Ascii.eqb c ":") && colon_free s'
  end.

(** The call is on a constructor's comment with context capture: the
    condition [t.isClassMethod(path) && path.node.kind === 'constructor']
    under [includeContext], for a path whose node is there. *)
Definition constructor_call (isClassMethod : NodePath -> bool)
    (path : NodePath) (includeContext : bool) : bool :=
  includeContext && isClassMethod path &&
  match node path with
  | Some n => bool_decide (kind n = Some "constructor"%string)
  | None => false
  end.

(** The keys of a sequence of discovered comments. *)
Definition keys_of (data : Data) (ds : list Discovery) : list string :=
  (fun d => visited_key data (d_loc d)) <$> ds.

(** ** The module when the content parser may throw *)

(** [parse] is called at one place with nothing to catch what it throws.
    Here it returns a completion; with a parser that always returns, the
    functions below are the ones above ([addComment_total_parser],
    [parseJavaScript_total_parser]). *)
Module Fallible.

Section ParserJs.

Variable parse : string -> SourceLocation -> Object -> Completion Parsed.
Variable findTarget : NodePath -> option NodePath.
Variable isClassMethod : NodePath -> bool.
Variable Ast : Type.
Variable parseToAst : string -> Completion Ast.
Variable discovered : string -> Ast -> list Discovery.
Variable exported : Ast -> Data -> list Call.

(** The call [parse(commentValue, commentLoc, context)]: what the parser
    throws goes on to the caller, and then no object comes back. *)
Definition call_parse (commentValue : string) (commentLoc : SourceLocation)
    (context : Object) : M Ref :=
  fun s =>
    match parse commentValue commentLoc context with
    | Return p =>
        (Return (length (heap s)),
         {| visited := visited s; commentsByNode := commentsByNode s;
            heap := heap s ++ [{| parsed := p; constructorComment := None |}];
            diagnostics := diagnostics s;
            parse_calls := parse_calls s ++
              [{| pc_value := commentValue; pc_loc := commentLoc;
                  pc_context := context |}] |})
    | Throw e =>
        (Throw e,
         {| visited := visited s; commentsByNode := commentsByNode s;
            heap := heap s; diagnostics := diagnostics s;
            parse_calls := parse_calls s ++
              [{| pc_value := commentValue; pc_loc := commentLoc;
                  pc_context := context |}] |})
    end.

Definition _addComment (data : Data) (commentValue : string)
    (commentLoc : SourceLocation) (path : NodePath)
    (nodeLoc : SourceLocation) (includeContext : bool) : M (option Ref) :=
  let key := visited_key data commentLoc in
  seen ← visited_has key;
  if negb seen then
    visited_add key;;
    let context := build_context data path nodeLoc includeContext in
    comment ← call_parse commentValue commentLoc context;
    if includeContext then
      commentsByNode_set (target_key findTarget path) comment;;
      is_constructor ←
        (if isClassMethod path
         then n ← member (node path);
              mret (bool_decide (kind n = Some "constructor"%string))
         else mret false : M bool);
      if (is_constructor : bool) then
        c ← read_comment comment;
        (if negb (hideconstructor (parsed c))
         then debuglog constructor_note else mret tt : M unit);;
        parent ← member (parentPath path);
        grandparent ← member (parentPath parent);
        parentComment ← commentsByNode_get (node_id <$> node grandparent);
        match parentComment with
        | Some parentComment =>
            set_constructorComment parentComment comment;;
            mret None
        | None =>
            if hideconstructor (parsed c) then mret None
            else mret (Some comment)
        end
      else mret (Some comment)
    else mret (Some comment)
  else mret None.

Definition parseJavaScript (data : Data) (config : DocumentationConfig)
    (w : World) : Completion (list Ref) * World :=
  let run : M (list Ref) :=
    ast ← lift_completion (parseToAst (source data));
    let addComment := _addComment in
    results ← flatMap (strategies Ast discovered exported config)
                (fun fn => fn ast data addComment);
    filter_comments results in
  let '(r, s) := run (enter w) in
  (r, leave s).

(** The store after a sequence of callback invocations, whatever each of
    them returned or threw. *)
Definition after_calls (calls : list Call) (s : Store) : Store :=
  foldl (fun s c =>
           snd (_addComment (c_data c) (d_value (c_found c)) (d_loc (c_found c))
                  (d_path (c_found c)) (d_nodeLoc (c_found c))
                  (c_includeContext c) s))
        s calls.

(** Whether the parser returned at a recorded invocation. *)
Definition parser_returns (pc : ParseCall) : bool :=
  match parse (pc_value pc) (pc_loc pc) (pc_context pc) with
  | Return _ => true
  | Throw _ => false
  end.

End ParserJs.

End Fallible.

(** The invocation of the parser for a comment found by a pass without
    context capture. *)
Definition plain_invocation (data : Data) (d : Discovery) : ParseCall :=
  {| pc_value := d_value d; pc_loc := d_loc d;
     pc_context := build_context data (d_path d) (d_nodeLoc d) false |}.

(** ** Further concrete inputs *)

Module Cases.

Local Open Scope string_scope.

(** A constructor's path that was cut off from its class. *)
Definition orphanCtorPath : NodePath :=
  {| node := Some Demo.ctorNode; parentPath := None |}.

(** A class method's path whose node is gone. *)
Definition emptyMethodPath : NodePath :=
  {| node := None; parentPath := Some Demo.bodyPath |}.

(** A babel-types test that only looks at the path's position. *)
Definition underClassBody (path : NodePath) : bool :=
  match parentPath path with
  | Some parent =>
      match node parent with
      | Some n => String.eqb (node_type n) "ClassBody"
      | None => false
      end
  | None => false
  end.

(** A file system with one file. *)
Definition readFileSync (name : string) : Completion string :=
  if String.eqb name "foo.js" then Return (source Demo.data)
  else Throw "ENOENT".

Definition no_file (name : string) : Completion string := Throw "ENOENT".

Definition fooFile : SourceFile :=
  {| sf_file := "foo.js"; sf_source := None; sf_sortKey := "000 foo.js" |}.

Definition emptySourceFile : SourceFile :=
  {| sf_file := "gone.js"; sf_source := Some ""; sf_sortKey := "001 gone.js" |}.

(** The same two comments found as leading and as trailing comments. *)
Definition doubleAst : Demo.Ast :=
  {| Demo.leading := [Demo.earlyDoc; Demo.lateDoc];
     Demo.inner := [];
     Demo.trailing := [Demo.lateDoc; Demo.earlyDoc];
     Demo.exports := [] |}.

(** A documented constructor whose path has no parent. *)
Definition orphanDoc : Discovery :=
  {| d_value := "ctor"; d_loc := Demo.at_line 1 23; d_path := orphanCtorPath;
     d_nodeLoc := Demo.at_line 1 35 |}.

Definition orphanAst : Demo.Ast :=
  {| Demo.leading := [orphanDoc]; Demo.inner := []; Demo.trailing := [];
     Demo.exports := [] |}.

Definition parse_file (ast : Demo.Ast) :=
  parseJavaScript Demo.parse Demo.findTarget Demo.isClassMethod Demo.Ast
    (Demo.parseToAst ast) Demo.discovered Demo.exported Demo.data
    {| documentExported := false |}.

(** A second doc comment on the constructor. *)
Definition secondCtorDoc : Discovery :=
  {| d_value := "ctor again"; d_loc := Demo.at_line 1 29; d_path := Demo.ctorPath;
     d_nodeLoc := Demo.at_line 1 35 |}.

(** A class and its constructor with two doc comments. *)
Definition twoCtorDocsAst : Demo.Ast :=
  {| Demo.leading := [Demo.classDoc; Demo.ctorDoc; secondCtorDoc];
     Demo.inner := []; Demo.trailing := []; Demo.exports := [] |}.

(** A content parser that rejects one comment. *)
Definition strict_parse (commentValue : string) (commentLoc : SourceLocation)
    (ctx : Object) : Completion Parsed :=
  if String.eqb commentValue "early" then Throw "SyntaxError"
  else Return (Demo.parse commentValue commentLoc ctx).

Definition entry (readFileSync : string -> Completion string) :=
  module_exports Demo.parse Demo.findTarget Demo.isClassMethod Demo.Ast
    (Demo.parseToAst Demo.classAst) Demo.discovered Demo.exported readFileSync.

End Cases.

(** * Properties *)

(** ** Sort keys *)

Section SortKey.

Local Open Scope string_scope.

Lemma app_nil_string (b : string) : "" ++ b = b.
Proof. reflexivity. Qed.

Lemma app_cons_string x (a b : string) : String x a ++ b = String x (a ++ b).
Proof. reflexivity. Qed.

Ltac string_app := rewrite ?app_cons_string, ?app_nil_string.

Lemma app_assoc_string (a b c : string) : (a ++ b) ++ c = a ++ (b ++ c).
Proof. induction a as [|x a IH]; string_app; [reflexivity | now rewrite IH]. Qed.

Lemma app_empty_string (a : string) : a ++ "" = a.
Proof. induction a as [|x a IH]; string_app; [reflexivity | now rewrite IH]. Qed.

Lemma length_fixed k n : String.length (fixed k n) = k.
Proof. induction k as [|k IH]; simpl; [reflexivity | now rewrite IH]. Qed.

Lemma fixed_snoc k n :
  fixed (S k) n = fixed k (n / 10) ++ String (Js.digit_char (n mod 10)) "".
Proof.
  induction k as [|k IH].
  - cbn. now rewrite Z.div_1_r.
  - change (fixed (S (S k)) n)
      with (String (Js.digit_char (n / 10 ^ Z.of_nat (S k) mod 10)) (fixed (S k) n)).
    rewrite IH. cbn [fixed]. string_app. f_equal.
    rewrite Nat2Z.inj_succ, Z.pow_succ_r by lia.
    rewrite Z.div_div by lia. reflexivity.
Qed.

Lemma digits_loop_fixed fuel : forall n acc,
  0 <= n < 2 ^ Z.of_nat fuel -> fuel <> O ->
  exists m, (1 <= m)%nat /\ n < 10 ^ Z.of_nat m /\
    (m = 1%nat \/ 10 ^ (Z.of_nat m - 1) <= n) /\
    Js.digits_loop fuel n acc = fixed m n ++ acc.
Proof.
  induction fuel as [|f IH]; intros n acc Hn Hf; [congruence|].
  simpl. destruct (Z.eqb_spec (n / 10) 0) as [Hz|Hz].
  - exists 1%nat. assert (n < 10) by (apply Z.div_small_iff in Hz; lia).
    repeat split; try lia. cbn. now rewrite Z.div_1_r.
  - assert (Hq : 0 < n / 10) by (pose proof (Z.div_pos n 10); lia).
    assert (Hlt : n / 10 < 2 ^ Z.of_nat f).
    { rewrite Nat2Z.inj_succ, Z.pow_succ_r in Hn by lia.
      apply Z.div_lt_upper_bound; lia. }
    assert (Hf' : f <> O).
    { intros ->. simpl in Hlt. lia. }
    destruct (IH (n / 10) (String (Js.digit_char (n mod 10)) acc)) as
      (m & Hm1 & Hm2 & Hm3 & Heq); [lia | assumption |].
    exists (S m). rewrite Heq, fixed_snoc, app_assoc_string. string_app.
    repeat split; try lia.
    + rewrite Nat2Z.inj_succ, Z.pow_succ_r by lia.
      pose proof (Z.mul_div_le n 10). pose proof (Z.mod_pos_bound n 10).
      pose proof (Z.div_mod n 10). lia.
    + right. replace (Z.of_nat (S m) - 1) with (Z.succ (Z.of_nat m - 1)) by lia.
      rewrite Z.pow_succ_r by lia.
      pose proof (Z.mul_div_le n 10).
      destruct Hm3 as [-> | Hm3]; [simpl; lia | lia].
Qed.

Lemma toString_fixed n :
  0 <= n ->
  exists m, (1 <= m)%nat /\ n < 10 ^ Z.of_nat m /\
    (m = 1%nat \/ 10 ^ (Z.of_nat m - 1) <= n) /\
    Js.Number_toString n = fixed m n.
Proof.
  intros Hn. unfold Js.Number_toString.
  destruct (Z.ltb_spec n 0) as [?|_]; [lia|].
  destruct (digits_loop_fixed (S (Z.to_nat (Z.log2 n))) n "") as
    (m & H1 & H2 & H3 & H4); [| discriminate |].
  - split; [lia|].
    rewrite Nat2Z.inj_succ, Z2Nat.id by apply Z.log2_nonneg.
    destruct (Z.eq_dec n 0) as [->|]; [reflexivity|].
    apply Z.log2_spec. lia.
  - exists m. repeat split; try assumption.
    rewrite H4. apply app_empty_string.
Qed.

Lemma leftPad_loop_zeros fuel : forall str width,
  (width <= String.length str + fuel)%nat ->
  leftPad_loop fuel str width = zeros (width - String.length str) ++ str.
Proof.
  induction fuel as [|f IH]; intros str width H; simpl.
  - replace (width - String.length str)%nat with O by lia. reflexivity.
  - destruct (Nat.ltb_spec (String.length str) width) as [Hlt|Hge].
    + rewrite IH by (simpl; lia). simpl String.length.
      replace (width - String.length str)%nat
        with (S (width - S (String.length str))) by lia.
      clear. induction (width - S (String.length str))%nat as [|k IHk];
        cbn [zeros]; string_app; [reflexivity | now rewrite IHk].
    + replace (width - String.length str)%nat with O by lia. reflexivity.
Qed.

Lemma fixed_small k n : 0 <= n < 10 ^ Z.of_nat k -> fixed (S k) n = String "0" (fixed k n).
Proof. intros H. simpl. rewrite Z.div_small by lia. reflexivity. Qed.

Lemma zeros_fixed d : forall m n,
  0 <= n < 10 ^ Z.of_nat m -> zeros d ++ fixed m n = fixed (d + m) n.
Proof.
  induction d as [|d IH]; intros m n H; [reflexivity|].
  change (zeros (S d) ++ fixed m n) with (String "0" (zeros d ++ fixed m n)).
  rewrite IH by assumption. change (S d + m)%nat with (S (d + m)).
  rewrite fixed_small; [reflexivity|].
  split; [lia|]. eapply Z.lt_le_trans; [apply H|].
  apply Z.pow_le_mono_r; lia.
Qed.

(** The padded line number is the fixed-width numeral, and the loop stops
    because its guard fails, not because it ran out of turns. *)
Lemma leftPad_fixed n (width : nat) :
  0 <= n < 10 ^ Z.of_nat width -> (1 <= width)%nat ->
  leftPad n width = fixed width n.
Proof.
  intros Hn Hw. unfold leftPad.
  destruct (toString_fixed n) as (m & H1 & H2 & H3 & ->); [lia|].
  assert (Hm : (m <= width)%nat).
  { destruct H3 as [-> | H3]; [assumption|].
    destruct (Nat.le_gt_cases m width) as [|Hgt]; [assumption|].
    assert (10 ^ Z.of_nat width <= 10 ^ (Z.of_nat m - 1))
      by (apply Z.pow_le_mono_r; lia). lia. }
  rewrite leftPad_loop_zeros by (rewrite length_fixed; lia).
  rewrite length_fixed, zeros_fixed by lia.
  f_equal. lia.
Qed.

Lemma digit_char_compare a b :
  0 <= a < 10 -> 0 <= b < 10 ->
  Ascii.compare (Js.digit_char a) (Js.digit_char b) = Z.compare a b.
Proof.
  intros Ha Hb.
  assert (Ea : a = 0 \/ a = 1 \/ a = 2 \/ a = 3 \/ a = 4 \/ a = 5 \/ a = 6 \/
               a = 7 \/ a = 8 \/ a = 9) by lia.
  assert (Eb : b = 0 \/ b = 1 \/ b = 2 \/ b = 3 \/ b = 4 \/ b = 5 \/ b = 6 \/
               b = 7 \/ b = 8 \/ b = 9) by lia.
  repeat (destruct Ea as [-> | Ea]); try subst a;
    repeat (destruct Eb as [-> | Eb]); try subst b; reflexivity.
Qed.

Lemma fixed_compare k : forall a b,
  0 <= a -> 0 <= b -> a mod 10 ^ Z.of_nat k < b mod 10 ^ Z.of_nat k ->
  String.compare (fixed k a) (fixed k b) = Lt.
Proof.
  induction k as [|k IH]; intros a b Ha Hb Hlt.
  - simpl in Hlt. rewrite !Z.mod_1_r in Hlt. lia.
  - cbn [fixed String.compare].
    set (p := 10 ^ Z.of_nat k) in *.
    assert (Hp : 0 < p) by (apply Z.pow_pos_nonneg; lia).
    assert (Hs : 10 ^ Z.of_nat (S k) = p * 10).
    { rewrite Nat2Z.inj_succ, Z.pow_succ_r by lia. unfold p. lia. }
    rewrite Hs in Hlt. rewrite !Z.rem_mul_r in Hlt by lia.
    pose proof (Z.mod_pos_bound a p Hp). pose proof (Z.mod_pos_bound b p Hp).
    pose proof (Z.mod_pos_bound (a / p) 10 ltac:(lia)) as Hda.
    pose proof (Z.mod_pos_bound (b / p) 10 ltac:(lia)) as Hdb.
    rewrite digit_char_compare by assumption.
    destruct (Z.compare_spec (a / p mod 10) (b / p mod 10)) as [He|Hl|Hg].
    + apply IH; try assumption. fold p. rewrite He in Hlt. lia.
    + reflexivity.
    + nia.
Qed.

Lemma compare_app_prefix p : forall x y,
  String.compare (p ++ x) (p ++ y) = String.compare x y.
Proof.
  induction p as [|c p IH]; intros x y; string_app; [reflexivity|]. cbn [String.compare].
  unfold Ascii.compare. rewrite N.compare_refl. apply IH.
Qed.

(** C5. Sort-key monotonicity: with the same base key, line numbers
    [1 <= L1 < L2 <= 99999999] give sort keys (base key, a space, the line
    left-padded with '0' to 8 digits) of which the first sorts
    lexicographically strictly before the second. *)
Theorem sortKey_monotone (base : string) (L1 L2 : Z) :
  1 <= L1 -> L1 < L2 -> L2 <= 99999999 ->
  String.compare (make_sortKey base L1) (make_sortKey base L2) = Lt.
Proof.
  intros H1 H12 H2. unfold make_sortKey.
  rewrite !compare_app_prefix.
  rewrite !leftPad_fixed by (simpl; lia).
  apply fixed_compare; try lia.
  rewrite !Z.mod_small by (simpl; lia). assumption.
Qed.

Lemma sortKey_monotone_witness :
  String.compare (make_sortKey "a.js" 9) (make_sortKey "a.js" 10) = Lt.
Proof. apply (sortKey_monotone "a.js" 9 10); lia. Defined.

End SortKey.

(** ** Concrete runs *)

Example leftPad_42 : leftPad 42 8 = "00000042"%string.
Proof. reflexivity. Qed.

Example leftPad_wide : leftPad 123456789 8 = "123456789"%string.
Proof. reflexivity. Qed.

Example leftPad_negative : leftPad (-5) 8 = "000000-5"%string.
Proof. reflexivity. Qed.

Example substring_swaps : Js.substring "abcdef" 4 1 = "bcd"%string.
Proof. reflexivity. Qed.

Example visited_key_demo :
  visited_key Demo.data (Demo.at_line 12 4) = "foo.js:12:4"%string.
Proof. reflexivity. Qed.

(** ** The deduplicator *)

Section AddComment.

Variable parse : string -> SourceLocation -> Object -> Parsed.
Variable findTarget : NodePath -> option NodePath.
Variable isClassMethod : NodePath -> bool.

Abbreviation addComment := (_addComment parse findTarget isClassMethod).
Abbreviation later := (after_calls parse findTarget isClassMethod).

Ltac run_monad :=
  unfold mbind, M_bind, mret, M_ret, visited_has, visited_add, call_parse,
    commentsByNode_set, commentsByNode_get, debuglog, read_comment,
    set_constructorComment, member, throw; cbn.

(** Splits a call of [_addComment] into the paths through its body. *)
Ltac addComment_paths data cl path ic s :=
  unfold _addComment; run_monad;
  destruct (bool_decide_reflect (visited_key data cl ∈ visited s)) as [?Hseen|?Hnew];
  cbn;
  [| destruct ic; cbn;
     [ destruct (isClassMethod path) eqn:?Hcm; cbn;
       [ destruct (node path) as [the_node|] eqn:?Hnode; cbn;
         [ destruct (bool_decide_reflect (kind the_node = Some "constructor"%string))
             as [?Hkind|?Hkind]; cbn;
           [ rewrite ?lookup_app_r, ?Nat.sub_diag by reflexivity; cbn;
             destruct (hideconstructor _) eqn:?Hhide; cbn;
             (destruct (parentPath path) as [the_parent|] eqn:?Hparent; cbn;
              [ destruct (parentPath the_parent) as [the_class|] eqn:?Hclass; cbn;
                [ destruct (_ !! _) as [?pc|] eqn:?Hget; cbn | ] | ])
           | ]
         | ]
       | ]
     | ] ].

(** A call on a comment that was seen before returns absent and leaves
    the store as it is. *)
Lemma addComment_seen data v cl path nl ic s :
  visited_key data cl ∈ visited s ->
  addComment data v cl path nl ic s = (Return None, s).
Proof.
  intros Hin. unfold _addComment. run_monad.
  rewrite bool_decide_eq_true_2 by assumption. reflexivity.
Qed.

(** Every call leaves its key in the visited set and removes none. *)
Lemma addComment_visited data v cl path nl ic s :
  visited (snd (addComment data v cl path nl ic s))
  = {[visited_key data cl]} ∪ visited s.
Proof.
  addComment_paths data cl path ic s; try reflexivity.
  symmetry. apply subseteq_union_1_L. now apply singleton_subseteq_l.
Qed.

(** The heap never shrinks. *)
Lemma addComment_heap_length data v cl path nl ic s :
  (length (heap s) <= length (heap (snd (addComment data v cl path nl ic s))))%nat.
Proof.
  addComment_paths data cl path ic s;
    rewrite ?length_alter, ?length_app; cbn; lia.
Qed.

(** A returned record is the object the parser made in this very call. *)
Lemma addComment_returns_fresh data v cl path nl ic s r :
  fst (addComment data v cl path nl ic s) = Return (Some r) ->
  r = length (heap s).
Proof.
  addComment_paths data cl path ic s; intros H; congruence.
Qed.

Lemma addComment_returns_valid data v cl path nl ic s r :
  fst (addComment data v cl path nl ic s) = Return (Some r) ->
  is_Some (heap (snd (addComment data v cl path nl ic s)) !! r).
Proof.
  intros Hr. pose proof (addComment_returns_fresh _ _ _ _ _ _ _ _ Hr) as ->.
  apply lookup_lt_is_Some. revert Hr.
  addComment_paths data cl path ic s; intros Hr; try discriminate Hr;
    rewrite ?length_alter, length_app; cbn; lia.
Qed.

Lemma later_visited calls : forall s key,
  key ∈ visited s -> key ∈ visited (later calls s).
Proof.
  induction calls as [|c calls IH]; intros s key H; [exact H|].
  cbn. apply IH. rewrite addComment_visited. set_solver.
Qed.


(** The call on a first-seen comment that the constructor rule does not
    concern: the record is returned. *)
Lemma addComment_ordinary data v cl path nl ic s :
  visited_key data cl ∉ visited s ->
  ic = false \/ isClassMethod path = false \/
    (exists n, node path = Some n /\ kind n <> Some "constructor"%string) ->
  addComment data v cl path nl ic s =
    (Return (Some (length (heap s))),
     {| visited := {[visited_key data cl]} ∪ visited s;
        commentsByNode :=
          if ic then <[target_key findTarget path := length (heap s)]> (commentsByNode s)
          else commentsByNode s;
        heap := heap s ++ [{| parsed := parse v cl (build_context data path nl ic);
                              constructorComment := None |}];
        diagnostics := diagnostics s;
        parse_calls := parse_calls s ++
          [{| pc_value := v; pc_loc := cl;
              pc_context := build_context data path nl ic |}] |}).
Proof.
  intros Hnew Hord.
  addComment_paths data cl path ic s; try reflexivity; try contradiction;
    exfalso; destruct Hord as [?|[?|(n' & ? & ?)]]; congruence.
Qed.

(** The call on a first-seen constructor comment with context capture. *)
Lemma addComment_constructor data v cl path nl s n p g :
  visited_key data cl ∉ visited s ->
  isClassMethod path = true -> node path = Some n ->
  kind n = Some "constructor"%string ->
  parentPath path = Some p -> parentPath p = Some g ->
  let comment := length (heap s) in
  let c := parse v cl (build_context data path nl true) in
  let m := <[target_key findTarget path := comment]> (commentsByNode s) in
  addComment data v cl path nl true s =
    (Return (match m !! (node_id <$> node g) with
             | Some _ => None
             | None => if hideconstructor c then None else Some comment
             end),
     {| visited := {[visited_key data cl]} ∪ visited s;
        commentsByNode := m;
        heap :=
          match m !! (node_id <$> node g) with
          | Some parentComment =>
              alter (with_constructorComment comment) parentComment
                (heap s ++ [{| parsed := c; constructorComment := None |}])
          | None => heap s ++ [{| parsed := c; constructorComment := None |}]
          end;
        diagnostics :=
          if hideconstructor c then diagnostics s
          else diagnostics s ++ [constructor_note];
        parse_calls := parse_calls s ++
          [{| pc_value := v; pc_loc := cl;
              pc_context := build_context data path nl true |}] |}).
Proof.
  intros Hnew Hcm Hn Hk Hp Hg. cbn zeta.
  unfold _addComment. run_monad.
  rewrite bool_decide_eq_false_2 by assumption. cbn.
  rewrite Hcm, Hn. cbn. rewrite bool_decide_eq_true_2 by assumption. cbn.
  rewrite lookup_app_r, Nat.sub_diag by reflexivity. cbn.
  rewrite Hp. 
  destruct (hideconstructor _); cbn; rewrite Hg; cbn;
    destruct (_ !! _); reflexivity.
Qed.

(** The association map only ever points into the heap. *)
Lemma addComment_refs_valid data v cl path nl ic s :
  refs_valid s -> refs_valid (snd (addComment data v cl path nl ic s)).
Proof.
  unfold refs_valid. intros Hs.
  assert (Hgrow : forall m (c : Comment) k,
            m = commentsByNode s ->
            map_Forall (fun _ r => (r < length (heap s ++ [c]))%nat)
              (<[k := length (heap s)]> m)).
  { intros m c k ->. apply map_Forall_insert_2.
    - rewrite length_app. cbn. lia.
    - eapply map_Forall_impl; [exact Hs|]. cbn. intros _ r Hr.
      rewrite length_app. lia. }
  addComment_paths data cl path ic s;
    rewrite ?length_alter; try (now apply Hgrow); try exact Hs.
  eapply map_Forall_impl; [exact Hs|]. cbn. intros _ r Hr.
  rewrite length_app. lia.
Qed.

Lemma later_refs_valid calls : forall s, refs_valid s -> refs_valid (later calls s).
Proof.
  induction calls as [|c calls IH]; intros s Hs; [exact Hs|].
  cbn. apply IH, addComment_refs_valid, Hs.
Qed.

(** C7. Duplicate call is a silent no-op: a call whose visited key is
    already in the visited set returns absent without throwing, and the
    store after it is the store before it: the visited set, the
    association map, the comment objects, the diagnostics written and
    the invocations of the content parser are all unchanged. *)
Theorem duplicate_call_is_noop data v cl path nl ic s :
  visited_key data cl ∈ visited s ->
  addComment data v cl path nl ic s = (Return None, s).
Proof.
  intros Hin. addComment_paths data cl path ic s; try contradiction.
  reflexivity.
Qed.

(** C1, as amended. Dedup idempotence: after a call on a comment not seen
    before, a second call with the same visited key returns absent and
    changes nothing, whatever calls were made in between.  The first call
    returns the new record when the constructor rule does not concern it;
    for a constructor comment with context capture it returns absent when
    the enclosing class has a record or the comment is marked
    hideconstructor, and the new record otherwise. *)
Theorem dedup_idempotence data v cl path nl ic between data' v' cl' path' nl' ic' s :
  visited_key data cl ∉ visited s ->
  visited_key data' cl' = visited_key data cl ->
  let first := addComment data v cl path nl ic s in
  let s2 := later between (snd first) in
  let comment := length (heap s) in
  (ic = false \/ isClassMethod path = false \/
     (exists n, node path = Some n /\ kind n <> Some "constructor"%string) ->
   fst first = Return (Some comment)) /\
  (forall n p g,
     ic = true -> isClassMethod path = true -> node path = Some n ->
     kind n = Some "constructor"%string ->
     parentPath path = Some p -> parentPath p = Some g ->
     fst first =
       Return (match <[target_key findTarget path := comment]> (commentsByNode s)
                       !! (node_id <$> node g) with
               | Some _ => None
               | None =>
                   if hideconstructor (parse v cl (build_context data path nl true))
                   then None else Some comment
               end)) /\
  addComment data' v' cl' path' nl' ic' s2 = (Return None, s2).
Proof.
  intros Hnew Hkey. cbn zeta. repeat split.
  - intros Hord. now rewrite addComment_ordinary.
  - intros n p g -> Hcm Hn Hk Hp Hg.
    now rewrite (addComment_constructor _ _ _ _ _ _ n p g).
  - apply addComment_seen. rewrite Hkey. apply later_visited.
    rewrite addComment_visited. set_solver.
Qed.

(** C3. Constructor merge with absent parent: when the enclosing class
    (the grandparent of the constructor's path) has no record in the
    association map, the call on the constructor's comment with context
    capture does not throw; it returns absent when the comment is marked
    hideconstructor, and the constructor's own new record otherwise. *)
Theorem constructor_without_class_comment data v cl path nl s n p g :
  visited_key data cl ∉ visited s ->
  isClassMethod path = true -> node path = Some n ->
  kind n = Some "constructor"%string ->
  parentPath path = Some p -> parentPath p = Some g ->
  commentsByNode s !! (node_id <$> node g) = None ->
  target_key findTarget path <> (node_id <$> node g) ->
  let c := parse v cl (build_context data path nl true) in
  fst (addComment data v cl path nl true s) =
    Return (if hideconstructor c then None else Some (length (heap s))) /\
  heap (snd (addComment data v cl path nl true s)) =
    heap s ++ [{| parsed := c; constructorComment := None |}].
Proof.
  intros Hnew Hcm Hn Hk Hp Hg Hclass Hne. cbn zeta.
  rewrite (addComment_constructor _ _ _ _ _ _ n p g) by assumption. cbn.
  rewrite lookup_insert_ne, Hclass by assumption. split; reflexivity.
Qed.

Lemma substring_in_range (src : string) (a b : Z) :
  0 <= a -> a <= b -> b <= Z.of_nat (String.length src) ->
  Js.substring src a b = String.substring (Z.to_nat a) (Z.to_nat (b - a)) src.
Proof.
  intros Ha Hab Hb. unfold Js.substring, Js.clamp.
  rewrite (Z.min_l a), (Z.min_l b), (Z.max_r 0 a), (Z.max_r 0 b) by lia.
  rewrite Z.min_l, Z.max_r by lia. reflexivity.
Qed.

(** C8. Context capture: on a first-seen comment the content parser is
    invoked once, with a context that, when context capture is on, has
    the node path as a non-enumerable [ast] property (so [ast] is not among
    the enumerated keys) and has a [code] property exactly when the path
    has a parent with a node, its value being the source text between that
    node's start and end offsets; when context capture is off the context
    has neither property. *)
Theorem context_capture data v cl path nl ic s :
  visited_key data cl ∉ visited s ->
  exists ctx,
    parse_calls (snd (addComment data v cl path nl ic s)) =
      parse_calls s ++ [{| pc_value := v; pc_loc := cl; pc_context := ctx |}] /\
    if ic then
      get_property ctx "ast" =
        Some {| value := VPath path; enumerable := false;
                configurable := true; writable := false |} /\
      ("ast"%string ∉ keys ctx) /\
      get_property ctx "code" =
        match parentPath path ≫= node with
        | Some parentNode =>
            Some (plain (VString (Js.substring (source data)
                                    (node_start parentNode) (node_end parentNode))))
        | None => None
        end
    else get_property ctx "ast" = None /\ get_property ctx "code" = None.
Proof.
  intros Hnew. exists (build_context data path nl ic). split.
  - addComment_paths data cl path ic s; try reflexivity; contradiction.
  - unfold build_context. destruct ic; [|split; reflexivity].
    assert (Hkeys : forall l : list string,
              "ast"%string ∉ "loc"%string :: "file"%string :: "sortKey"%string :: l <->
              "ast"%string ∉ l).
    { intros l. rewrite !not_elem_of_cons. intuition discriminate. }
    destruct (parentPath path) as [p|]; cbn;
      [destruct (node p) as [pn|]; cbn |];
      repeat split; try reflexivity; apply Hkeys;
      rewrite ?not_elem_of_cons; repeat split;
      try discriminate; apply not_elem_of_nil.
Qed.

End AddComment.

(** *** Instances in the concrete setting *)

Lemma duplicate_call_is_noop_witness :
  Demo.addComment Demo.data "Foo" (Demo.at_line 1 0) Demo.classPath
    (Demo.at_line 1 11) true Demo.class_seen
  = (Return None, Demo.class_seen).
Proof.
  apply (duplicate_call_is_noop Demo.parse Demo.findTarget Demo.isClassMethod).
  vm_compute. reflexivity.
Defined.

(** C1 as stated fails: the first call on a constructor comment marked
    hideconstructor returns absent although its key was never seen. *)
Lemma first_call_not_always_a_record :
  ~ (forall parse findTarget isClassMethod data v cl path nl ic s,
       visited_key data cl ∉ visited s ->
       exists r,
         fst (_addComment parse findTarget isClassMethod data v cl path nl ic s)
         = Return (Some r)).
Proof.
  intros H.
  destruct (H Demo.parse Demo.findTarget Demo.isClassMethod Demo.data
              "@hideconstructor"%string (Demo.at_line 1 23) Demo.ctorPath
              (Demo.at_line 1 35) true Demo.empty_store) as [r Hr].
  - apply not_elem_of_empty.
  - vm_compute in Hr. discriminate Hr.
Qed.

Lemma dedup_idempotence_witness :
  let s2 :=
    after_calls Demo.parse Demo.findTarget Demo.isClassMethod
      [Demo.call_of Demo.ctorDoc true; Demo.call_of Demo.lateDoc false]
      Demo.class_seen in
  Demo.addComment Demo.data "Foo again" (Demo.at_line 1 0) Demo.programPath
    (Demo.at_line 3 0) false s2 = (Return None, s2).
Proof.
  refine (proj2 (proj2 (dedup_idempotence Demo.parse Demo.findTarget
    Demo.isClassMethod Demo.data "Foo" (Demo.at_line 1 0) Demo.classPath
    (Demo.at_line 1 11) true
    [Demo.call_of Demo.ctorDoc true; Demo.call_of Demo.lateDoc false]
    Demo.data "Foo again" (Demo.at_line 1 0) Demo.programPath
    (Demo.at_line 3 0) false Demo.empty_store _ _))).
  - apply not_elem_of_empty.
  - reflexivity.
Defined.

Lemma constructor_without_class_comment_witness :
  fst (Demo.addComment Demo.data "@hideconstructor" (Demo.at_line 1 23)
         Demo.ctorPath (Demo.at_line 1 35) true Demo.empty_store) = Return None /\
  fst (Demo.addComment Demo.data "ctor" (Demo.at_line 1 23)
         Demo.ctorPath (Demo.at_line 1 35) true Demo.empty_store)
  = Return (Some 0%nat).
Proof.
  split.
  - refine (proj1 (constructor_without_class_comment Demo.parse Demo.findTarget
      Demo.isClassMethod Demo.data "@hideconstructor" (Demo.at_line 1 23)
      Demo.ctorPath (Demo.at_line 1 35) Demo.empty_store Demo.ctorNode
      Demo.bodyPath Demo.classPath _ _ _ _ _ _ _ _));
      try reflexivity; try apply not_elem_of_empty.
    vm_compute. intros H. discriminate H.
  - refine (proj1 (constructor_without_class_comment Demo.parse Demo.findTarget
      Demo.isClassMethod Demo.data "ctor" (Demo.at_line 1 23)
      Demo.ctorPath (Demo.at_line 1 35) Demo.empty_store Demo.ctorNode
      Demo.bodyPath Demo.classPath _ _ _ _ _ _ _ _));
      try reflexivity; try apply not_elem_of_empty.
    vm_compute. intros H. discriminate H.
Defined.

Lemma context_capture_witness :
  exists ctx,
    parse_calls (snd (Demo.addComment Demo.data "ctor" (Demo.at_line 1 23)
                        Demo.ctorPath (Demo.at_line 1 35) true Demo.class_seen))
    = parse_calls Demo.class_seen ++
        [{| pc_value := "ctor"; pc_loc := Demo.at_line 1 23; pc_context := ctx |}] /\
    ("ast"%string ∉ keys ctx) /\
    get_property ctx "code"
    = Some (plain (VString "{ /** ctor */ constructor() {} }")).
Proof.
  destruct (context_capture Demo.parse Demo.findTarget Demo.isClassMethod
    Demo.data "ctor" (Demo.at_line 1 23) Demo.ctorPath (Demo.at_line 1 35)
    true Demo.class_seen) as (ctx & Hcalls & Hast & Hkeys & Hcode).
  - vm_compute. intros H. discriminate H.
  - exists ctx. split; [exact Hcalls|]. split; [exact Hkeys|].
    rewrite Hcode. reflexivity.
Defined.

(** ** The orchestrator *)

Section Orchestrator.

Variable parse : string -> SourceLocation -> Object -> Parsed.
Variable findTarget : NodePath -> option NodePath.
Variable isClassMethod : NodePath -> bool.
Variable Ast : Type.
Variable parseToAst : string -> Completion Ast.
Variable discovered : string -> Ast -> list Discovery.
Variable exported : Ast -> Data -> list Call.

Abbreviation addComment := (_addComment parse findTarget isClassMethod).
Abbreviation walk := (walkComments Ast discovered).
Abbreviation walk_exported := (walkExported Ast exported).
Abbreviation parse_file :=
  (parseJavaScript parse findTarget isClassMethod Ast parseToAst discovered exported).

Ltac run_monad :=
  unfold mbind, M_bind, mret, M_ret, visited_has, visited_add, call_parse,
    commentsByNode_set, commentsByNode_get, debuglog, read_comment,
    set_constructorComment, member, throw; cbn.

Lemma leave_enter w : leave (enter w) = w.
Proof. now destruct w. Qed.

(** [parseJavaScript] written out: the strategies run one after the other
    on the same store and the filter reads the final one. *)
Lemma parseJavaScript_unfold data config w :
  parse_file data config w =
    match parseToAst (source data) with
    | Throw e => (Throw e, w)
    | Return ast =>
        let run : M (list Ref) :=
          if documentExported config then
            es ← walk_exported ast data addComment;
            filter_comments es
          else
            ls ← walk "leadingComments" true ast data addComment;
            ns ← walk "innerComments" false ast data addComment;
            ts ← walk "trailingComments" false ast data addComment;
            filter_comments (ls ++ ns ++ ts) in
        (fst (run (enter w)), leave (snd (run (enter w))))
    end.
Proof.
  unfold parseJavaScript, lift_completion, flatMap, strategies.
  unfold mbind at 1, M_bind at 1.
  destruct (parseToAst (source data)) as [ast|e]; [|now rewrite leave_enter].
  destruct (documentExported config); cbn; run_monad.
  - destruct (walkExported _ _ _ _ _ _) as [[es|e] s]; cbn;
      rewrite ?app_nil_r; reflexivity.
  - destruct (walkComments _ _ "leadingComments" _ _ _ _ _) as [[ls|e] s1];
      cbn; [|reflexivity].
    destruct (walkComments _ _ "innerComments" _ _ _ _ _) as [[ns|e] s2];
      cbn; [|reflexivity].
    destruct (walkComments _ _ "trailingComments" _ _ _ _ _) as [[ts|e] s3];
      cbn; rewrite ?app_nil_r; reflexivity.
Qed.

(** What passes the final filter is a record without a truthy [lends]. *)
Lemma filter_comments_kept results s :
  Forall (fun r => exists c, heap s !! r = Some c /\ lends_truthy c = false)
         (omap id (List.filter (keep (heap s)) results)).
Proof.
  induction results as [|o results IH]; cbn; [constructor|].
  destruct (keep (heap s) o) eqn:Hkeep; [|exact IH].
  destruct o as [r|]; [|discriminate]. cbn. constructor; [|exact IH].
  cbn in Hkeep. destruct (heap s !! r) as [c|]; [|discriminate].
  exists c. split; [reflexivity|]. now apply negb_true_iff.
Qed.

Lemma parseJavaScript_kept data config w :
  match parse_file data config w with
  | (Return out, w') =>
      Forall (fun r => exists c, w_heap w' !! r = Some c /\ lends_truthy c = false) out
  | (Throw _, _) => True
  end.
Proof.
  unfold parseJavaScript, lift_completion.
  unfold mbind at 1, M_bind at 1.
  destruct (parseToAst (source data)) as [ast|e]; [|exact I].
  unfold mbind, M_bind.
  destruct (flatMap _ _ _) as [[results|e] s]; [|exact I].
  cbn. apply filter_comments_kept.
Qed.

(** *** Passes without context capture *)

Lemma addComment_without_context data v cl path nl s :
  addComment data v cl path nl false s =
    if bool_decide (visited_key data cl ∈ visited s) then (Return None, s)
    else (Return (Some (length (heap s))),
          {| visited := {[visited_key data cl]} ∪ visited s;
             commentsByNode := commentsByNode s;
             heap := heap s ++ [{| parsed := parse v cl (build_context data path nl false);
                                   constructorComment := None |}];
             diagnostics := diagnostics s;
             parse_calls := parse_calls s ++
               [{| pc_value := v; pc_loc := cl;
                   pc_context := build_context data path nl false |}] |}).
Proof.
  unfold _addComment. run_monad.
  destruct (bool_decide _); reflexivity.
Qed.

Lemma mapM_cons_run {A B} (f : A -> M B) x xs s :
  mapM f (x :: xs) s =
    match f x s with
    | (Return y, s1) =>
        match mapM f xs s1 with
        | (Return ys, s2) => (Return (y :: ys), s2)
        | (Throw e, s2) => (Throw e, s2)
        end
    | (Throw e, s1) => (Throw e, s1)
    end.
Proof. reflexivity. Qed.

Lemma walkComments_captures_nothing type ast data :
  captures_nothing (walk type false ast data addComment).
Proof.
  unfold walkComments. induction (discovered type ast) as [|d ds IH]; intros s.
  - exists [], [], []. cbn. rewrite !app_nil_r. repeat split; constructor.
  - rewrite mapM_cons_run, addComment_without_context.
    destruct (bool_decide _).
    + destruct (IH s) as (rs & ncalls & ncomments & Hr & Hm & Hd & Hp & Hc & Hh & Hn & Hl & Ho).
      destruct (mapM _ ds s) as [[rs'|e] s']; cbn in *; [|discriminate].
      injection Hr as ->. exists (None :: rs), ncalls, ncomments.
      repeat split; assumption.
    + set (s1 := {| visited := _ |}).
      destruct (IH s1) as (rs & ncalls & ncomments & Hr & Hm & Hd & Hp & Hc & Hh & Hn & Hl & Ho).
      destruct (mapM _ ds s1) as [[rs'|e] s']; cbn in *; [|discriminate].
      injection Hr as ->.
      exists (Some (length (heap s)) :: rs),
        ({| pc_value := d_value d; pc_loc := d_loc d;
            pc_context := build_context data (d_path d) (d_nodeLoc d) false |} :: ncalls),
        ({| parsed := parse (d_value d) (d_loc d)
                        (build_context data (d_path d) (d_nodeLoc d) false);
            constructorComment := None |} :: ncomments).
      rewrite Hp, Hh, <- !app_assoc. cbn.
      repeat split; try assumption; try (constructor; [|assumption]);
        try reflexivity; try (f_equal; assumption).
      * split; reflexivity.
      * f_equal. rewrite Ho, length_app. cbn. f_equal. lia.
Qed.

(** *** A run does not depend on the world it starts in *)

Section Relocation.

Variable w : World.

Abbreviation base := (length (w_heap w)).
Abbreviation sim := (relocated w).
Abbreviation shift := (fmap (M:=option) (Nat.add base)).
Abbreviation shift_all := (fmap (M:=list) shift).

Lemma sim_bind {A B} (relA : A -> A) (relB : B -> B) (m0 m : M A) (f0 f : A -> M B) :
  sim relA m0 m -> (forall a, sim relB (f0 a) (f (relA a))) ->
  sim relB (m0 ≫= f0) (m ≫= f).
Proof.
  intros Hm Hf s0. unfold mbind, M_bind. rewrite Hm.
  destruct (m0 s0) as [[a|e] s1]; cbn; [apply Hf | reflexivity].
Qed.

Lemma sim_member {A} (o : option A) : sim id (member o) (member o).
Proof. intros s0. destruct o; reflexivity. Qed.

Lemma sim_lift {A} (c : Completion A) : sim id (lift_completion c) (lift_completion c).
Proof. intros s0. destruct c; reflexivity. Qed.

Lemma sim_visited_has key : sim id (visited_has key) (visited_has key).
Proof. intros s0. reflexivity. Qed.

Lemma sim_visited_add key : sim id (visited_add key) (visited_add key).
Proof. intros s0. reflexivity. Qed.

Lemma sim_debuglog msg : sim id (debuglog msg) (debuglog msg).
Proof.
  intros s0. unfold debuglog, relocate_store. cbn. now rewrite app_assoc.
Qed.

Lemma sim_call_parse v cl ctx :
  sim (Nat.add base) (call_parse parse v cl ctx) (call_parse parse v cl ctx).
Proof.
  intros s0. unfold call_parse, relocate_store. cbn.
  rewrite length_app, length_fmap, fmap_app, !app_assoc. reflexivity.
Qed.

Lemma sim_commentsByNode_set k r :
  sim id (commentsByNode_set k r) (commentsByNode_set k (base + r)%nat).
Proof.
  intros s0. unfold commentsByNode_set, relocate_store. cbn.
  now rewrite fmap_insert.
Qed.

Lemma sim_commentsByNode_get k :
  sim shift (commentsByNode_get k) (commentsByNode_get k).
Proof.
  intros s0. unfold commentsByNode_get, relocate_store. cbn.
  now rewrite lookup_fmap.
Qed.

Lemma sim_read_comment r :
  sim (relocate_comment base) (read_comment r) (read_comment (base + r)%nat).
Proof.
  intros s0. unfold read_comment, relocate_store. cbn.
  rewrite lookup_app_r by lia.
  replace (base + r - base)%nat with r by lia.
  rewrite list_lookup_fmap. destruct (heap s0 !! r); reflexivity.
Qed.

Lemma sim_set_constructorComment pc r :
  sim id (set_constructorComment pc r)
         (set_constructorComment (base + pc)%nat (base + r)%nat).
Proof.
  intros s0. unfold set_constructorComment, relocate_store. cbn.
  rewrite alter_app_r.
  rewrite (list_fmap_alter _ (with_constructorComment r)
             (with_constructorComment (base + r)%nat)); [reflexivity|].
  apply Forall_forall. intros c _. reflexivity.
Qed.

Ltac sim_return := intros ?s; reflexivity.

Lemma addComment_relocated data v cl path nl ic :
  sim shift (addComment data v cl path nl ic)
                            (addComment data v cl path nl ic).
Proof.
  unfold _addComment.
  apply (sim_bind id); [apply sim_visited_has|]. intros seen.
  destruct seen; cbn; [sim_return|].
  apply (sim_bind id); [apply sim_visited_add|]. intros [].
  apply (sim_bind (Nat.add base)); [apply sim_call_parse|]. intros comment.
  destruct ic; [|sim_return].
  apply (sim_bind id); [apply sim_commentsByNode_set|]. intros [].
  apply (sim_bind id).
  { destruct (isClassMethod path); [|sim_return].
    apply (sim_bind id); [apply sim_member|]. intros n. sim_return. }
  intros is_constructor.
  destruct is_constructor; cbn; [|sim_return].
  apply (sim_bind (relocate_comment base)); [apply sim_read_comment|]. intros c.
  cbn [relocate_comment parsed].
  apply (sim_bind id).
  { destruct (hideconstructor (parsed c)); cbn;
      [sim_return | apply sim_debuglog]. }
  intros [].
  apply (sim_bind id); [apply sim_member|]. intros parent.
  apply (sim_bind id); [apply sim_member|]. intros grandparent.
  apply (sim_bind shift); [apply sim_commentsByNode_get|].
  intros [parentComment|]; cbn.
  - apply (sim_bind id); [apply sim_set_constructorComment|]. intros [].
    sim_return.
  - destruct (hideconstructor (parsed c));
      [sim_return | sim_return].
Qed.

Lemma mapM_relocated {A B} (rel : B -> B) (f : A -> M B) (xs : list A) :
  Forall (fun x => sim rel (f x) (f x)) xs ->
  sim (fmap rel) (mapM f xs) (mapM f xs).
Proof.
  induction 1 as [|x xs Hx _ IH]; cbn [mapM]; [sim_return|].
  apply (sim_bind rel); [exact Hx|]. intros y.
  apply (sim_bind (fmap rel)); [exact IH|]. intros ys.
  sim_return.
Qed.

Lemma walkComments_relocated type ic ast data :
  sim shift_all (walk type ic ast data addComment)
                                   (walk type ic ast data addComment).
Proof.
  apply mapM_relocated, Forall_forall. intros d _. apply addComment_relocated.
Qed.

Lemma walkExported_relocated ast data :
  sim shift_all (walk_exported ast data addComment)
                                   (walk_exported ast data addComment).
Proof.
  apply mapM_relocated, Forall_forall. intros c _. apply addComment_relocated.
Qed.

Lemma keep_relocated h0 (o : option Ref) :
  keep (w_heap w ++ (relocate_comment base <$> h0)) (shift o) = keep h0 o.
Proof.
  destruct o as [r|]; [|reflexivity]. cbn.
  rewrite lookup_app_r by lia. replace (base + r - base)%nat with r by lia.
  rewrite list_lookup_fmap. destruct (h0 !! r); reflexivity.
Qed.

Lemma filter_comments_relocated results :
  sim (fmap (M:=list) (Nat.add base)) (filter_comments results)
      (filter_comments (shift_all results)).
Proof.
  intros s0. unfold filter_comments, relocate_store. cbn. do 2 f_equal.
  induction results as [|o results IH]; [reflexivity|]. cbn.
  rewrite keep_relocated. destruct (keep (heap s0) o); [|exact IH].
  destruct o as [r|]; cbn; [now rewrite IH | exact IH].
Qed.

Lemma concat_relocated {A} (g : A -> A) (yss : list (list A)) :
  concat (fmap (M:=list) (fmap (M:=list) g) yss) = fmap (M:=list) g (concat yss).
Proof.
  induction yss as [|ys yss IH]; [reflexivity|]. cbn. now rewrite fmap_app, IH.
Qed.

Lemma enter_relocated : enter w = relocate_store w (enter empty_world).
Proof.
  unfold enter, relocate_store. cbn. now rewrite fmap_empty, !app_nil_r.
Qed.

Lemma parseJavaScript_relocated data config :
  parse_file data config w =
    let alone := parse_file data config empty_world in
    (relocate_result base (fst alone),
     {| w_heap := w_heap w ++ (relocate_comment base <$> w_heap (snd alone));
        w_diagnostics := w_diagnostics w ++ w_diagnostics (snd alone);
        w_parse_calls := w_parse_calls w ++ w_parse_calls (snd alone) |}).
Proof.
  unfold parseJavaScript.
  set (run := mbind _ _).
  assert (Hrun : sim (fmap (M:=list) (Nat.add base)) run run).
  { unfold run.
    apply (sim_bind id); [apply sim_lift|]. intros ast.
    apply (sim_bind shift_all).
    - unfold flatMap.
      apply (sim_bind (fmap (M:=list) shift_all)).
      + apply mapM_relocated. unfold strategies.
        destruct (documentExported config); repeat constructor;
          first [apply walkExported_relocated | apply walkComments_relocated].
      + intros yss. intros s0. cbn. now rewrite concat_relocated.
    - intros results. apply filter_comments_relocated. }
  rewrite enter_relocated, Hrun.
  destruct (run (enter empty_world)) as [r s0]. cbn.
  reflexivity.
Qed.

Lemma read_doc_relocated depth : forall h0 r,
  read_doc depth (w_heap w ++ (relocate_comment base <$> h0)) (base + r)%nat
  = read_doc depth h0 r.
Proof.
  induction depth as [|d IH]; intros h0 r; [reflexivity|]. cbn.
  rewrite lookup_app_r by lia. replace (base + r - base)%nat with r by lia.
  rewrite list_lookup_fmap. destruct (h0 !! r) as [c|]; [|reflexivity]. cbn.
  destruct (constructorComment c) as [k|]; [|reflexivity]. cbn.
  now rewrite IH.
Qed.

Lemma returned_docs_relocated depth data config :
  returned_docs depth (parse_file data config w)
  = returned_docs depth (parse_file data config empty_world).
Proof.
  rewrite parseJavaScript_relocated. cbn zeta. unfold returned_docs. cbn.
  destruct (fst (parse_file data config empty_world)) as [out|e]; [|reflexivity].
  cbn. f_equal. rewrite <- list_fmap_compose. apply list_fmap_ext.
  intros i r _. cbn. apply read_doc_relocated.
Qed.

End Relocation.

End Orchestrator.

(** C9. Per-file isolation and determinism: [parseJavaScript] starts from
    an empty visited set and an empty association map whatever world it is
    called in, so the run in a world [w] left behind by earlier processing
    is the run in the empty world, placed after [w]'s comment objects:
    what [w] held is untouched, the same diagnostics and parser
    invocations are added, and the caller reads the same sequence of
    records, to any depth of nesting. *)
Theorem parseJavaScript_isolated
    parse findTarget isClassMethod Ast parseToAst discovered exported data config w :
  let parse_file :=
    parseJavaScript parse findTarget isClassMethod Ast parseToAst
      discovered exported data config in
  let base := length (w_heap w) in
  fst (parse_file w) = relocate_result base (fst (parse_file empty_world)) /\
  w_heap (snd (parse_file w))
    = w_heap w ++ (relocate_comment base <$> w_heap (snd (parse_file empty_world))) /\
  w_diagnostics (snd (parse_file w))
    = w_diagnostics w ++ w_diagnostics (snd (parse_file empty_world)) /\
  w_parse_calls (snd (parse_file w))
    = w_parse_calls w ++ w_parse_calls (snd (parse_file empty_world)) /\
  (forall depth,
     returned_docs depth (parse_file w) = returned_docs depth (parse_file empty_world)).
Proof.
  cbn zeta. repeat split;
    try (rewrite parseJavaScript_relocated; reflexivity).
  intros depth. apply returned_docs_relocated.
Qed.

(** C6. Strategy selection and ordering: [parseJavaScript] runs the
    exported-symbols strategy alone when [config.documentExported] is
    true, and otherwise the leading-, inner- and trailing-comments
    strategies in that order, each on the store the previous one left;
    the results are concatenated in run order and filtered, and nothing
    sorts them: with a leading comment on a node at line 10 and an inner
    comment on a node at line 5, the returned sequence has the record
    with the greater sort key first. *)
Theorem one_strategy_family_in_order
    parse findTarget isClassMethod Ast parseToAst discovered exported data config w :
  let addComment := _addComment parse findTarget isClassMethod in
  let walk := walkComments Ast discovered in
  parseJavaScript parse findTarget isClassMethod Ast parseToAst
    discovered exported data config w =
    match parseToAst (source data) with
    | Throw e => (Throw e, w)
    | Return ast =>
        let run : M (list Ref) :=
          if documentExported config then
            es ← walkExported Ast exported ast data addComment;
            filter_comments es
          else
            ls ← walk "leadingComments"%string true ast data addComment;
            ns ← walk "innerComments"%string false ast data addComment;
            ts ← walk "trailingComments"%string false ast data addComment;
            filter_comments (ls ++ ns ++ ts) in
        (fst (run (enter w)), leave (snd (run (enter w))))
    end /\
  (let res := Demo.run Demo.unsortedAst false empty_world in
   fst res = Return [0%nat; 1%nat] /\
   sortKey_of <$> w_heap (snd res) !! 0%nat
     = Some (Some (VString "000 foo.js 00000010")) /\
   sortKey_of <$> w_heap (snd res) !! 1%nat
     = Some (Some (VString "000 foo.js 00000005")) /\
   String.compare "000 foo.js 00000010" "000 foo.js 00000005" = Gt).
Proof.
  split; [apply parseJavaScript_unfold|].
  repeat split; reflexivity.
Qed.

(** C10. Context capture is for leading comments only: when
    [config.documentExported] is false the strategies are the
    leading-comments pass bound with capture flag true and the inner- and
    trailing-comments passes bound with false; each of the latter two, on
    any store, makes no entry in the association map, writes no
    diagnostic, hands the parser only contexts without [ast] and [code],
    sets no [constructorComment], and returns every comment object it
    created, so none is merged into a class or discarded as
    hideconstructor. *)
Theorem context_capture_leading_only
    parse findTarget isClassMethod Ast discovered exported config ast data :
  documentExported config = false ->
  let addComment := _addComment parse findTarget isClassMethod in
  strategies Ast discovered exported config
  = [ walkComments Ast discovered "leadingComments" true;
      walkComments Ast discovered "innerComments" false;
      walkComments Ast discovered "trailingComments" false ] /\
  captures_nothing
    (walkComments Ast discovered "innerComments" false ast data addComment) /\
  captures_nothing
    (walkComments Ast discovered "trailingComments" false ast data addComment).
Proof.
  intros Hcfg. cbn zeta. unfold strategies. rewrite Hcfg.
  repeat split; try reflexivity; apply walkComments_captures_nothing.
Qed.

(** C4. Lends filtering: every record in the sequence [parseJavaScript]
    returns is without a truthy [lends] marker.  Such records are dropped
    although the deduplicator produced them: in the run on a file with a
    [lends] comment followed by an ordinary one, the callback returns the
    [lends] record and the output holds the ordinary record only. *)
Theorem lends_never_returned
    parse findTarget isClassMethod Ast parseToAst discovered exported data config w :
  match parseJavaScript parse findTarget isClassMethod Ast parseToAst
          discovered exported data config w with
  | (Return out, w') =>
      Forall (fun r => exists c, w_heap w' !! r = Some c /\ lends_truthy c = false) out
  | (Throw _, _) => True
  end /\
  (fst (Demo.addComment Demo.data "@lends Foo" (Demo.at_line 7 0) Demo.programPath
          (Demo.at_line 8 0) true Demo.empty_store) = Return (Some 0%nat) /\
   fst (Demo.run Demo.lendsAst false empty_world) = Return [1%nat] /\
   lends_truthy <$> w_heap (snd (Demo.run Demo.lendsAst false empty_world)) !! 0%nat
   = Some true).
Proof.
  split; [apply parseJavaScript_kept|].
  repeat split; reflexivity.
Qed.

Lemma context_capture_leading_only_witness :
  captures_nothing
    (walkComments Demo.Ast Demo.discovered "innerComments" false
       Demo.unsortedAst Demo.data Demo.addComment).
Proof.
  exact (proj1 (proj2 (context_capture_leading_only Demo.parse Demo.findTarget
    Demo.isClassMethod Demo.Ast Demo.discovered Demo.exported
    {| documentExported := false |} Demo.unsortedAst Demo.data eq_refl))).
Defined.

(** ** End-to-end runs *)

(** A class with a leading comment and a constructor with a leading
    comment: one record, the class's, with the constructor's nested. *)
Example class_and_constructor_run :
  returned_docs 2 (Demo.run Demo.classAst false empty_world)
  = Return
      [Some {| doc_parsed := parsed Demo.classComment;
               doc_constructorComment :=
                 Some {| doc_parsed :=
                           Demo.parse "ctor" (Demo.at_line 1 23)
                             (build_context Demo.data Demo.ctorPath
                                (Demo.at_line 1 35) true);
                         doc_constructorComment := None |} |}].
Proof. reflexivity. Qed.

(** The same comment found as a leading and as a trailing comment gives
    one record. *)
Example leading_and_trailing_double_visit :
  fst (Demo.run {| Demo.leading := [Demo.earlyDoc; Demo.lateDoc];
                   Demo.inner := [];
                   Demo.trailing := [Demo.lateDoc; Demo.earlyDoc];
                   Demo.exports := [] |} false empty_world)
  = Return [0%nat; 1%nat].
Proof. reflexivity. Qed.

(** The exported-symbols mode runs the exported walker only. *)
Example exported_only_run :
  fst (Demo.run {| Demo.leading := [Demo.earlyDoc];
                   Demo.inner := [];
                   Demo.trailing := [];
                   Demo.exports := [Demo.call_of Demo.lateDoc true] |}
         true empty_world)
  = Return [0%nat] /\
  description <$> (parsed <$>
    w_heap (snd (Demo.run {| Demo.leading := [Demo.earlyDoc];
                             Demo.inner := [];
                             Demo.trailing := [];
                             Demo.exports := [Demo.call_of Demo.lateDoc true] |}
                   true empty_world)) !! 0%nat)
  = Some "late"%string.
Proof. split; reflexivity. Qed.

(** * Further properties of the module *)

(** ** [leftPad] and the sort key *)

Section LeftPad.

Local Open Scope string_scope.

Ltac string_app := rewrite ?app_cons_string, ?app_nil_string.

Lemma length_app_string (a b : string) :
  String.length (a ++ b) = (String.length a + String.length b)%nat.
Proof.
  induction a as [|x a IH]; string_app; [reflexivity|]. cbn. now rewrite IH.
Qed.

Lemma length_zeros k : String.length (zeros k) = k.
Proof. induction k as [|k IH]; cbn; [reflexivity | now rewrite IH]. Qed.

(** X1. [leftPad] in closed form: the decimal numeral of the number with
    exactly [width - length] zeros in front, so nothing is ever cut off
    and the result is [max width length] characters long. *)
Theorem leftPad_closed_form (n : Z) (width : nat) :
  leftPad n width
  = zeros (width - String.length (Js.Number_toString n)) ++ Js.Number_toString n /\
  String.length (leftPad n width)
  = Nat.max width (String.length (Js.Number_toString n)).
Proof.
  unfold leftPad. rewrite leftPad_loop_zeros by lia. split; [reflexivity|].
  rewrite length_app_string, length_zeros. lia.
Qed.

Lemma toString_digits n (m : nat) :
  10 ^ (Z.of_nat m - 1) <= n < 10 ^ Z.of_nat m -> (2 <= m)%nat ->
  Js.Number_toString n = fixed m n.
Proof.
  intros [Hlo Hhi] Hm.
  assert (Hpos : 0 < 10 ^ (Z.of_nat m - 1)) by (apply Z.pow_pos_nonneg; lia).
  destruct (toString_fixed n) as (k & Hk1 & Hk2 & Hk3 & ->); [lia|].
  f_equal. destruct (Nat.lt_trichotomy k m) as [Hlt|[->|Hgt]]; [|reflexivity|].
  - assert (10 ^ Z.of_nat k <= 10 ^ (Z.of_nat m - 1))
      by (apply Z.pow_le_mono_r; lia). lia.
  - destruct Hk3 as [->|Hk3]; [lia|].
    assert (10 ^ Z.of_nat m <= 10 ^ (Z.of_nat k - 1))
      by (apply Z.pow_le_mono_r; lia). lia.
Qed.

(** X2. Past eight digits the sort key no longer follows the line
    number: for an 8-digit line [L1] and a 9-digit line [L2] whose leading
    digit is smaller than that of [L1], the key of [L2] sorts strictly
    before the key of [L1] although [L1 < L2]. *)
Theorem sortKey_order_lost_at_nine_digits (base : string) (L1 L2 : Z) :
  10 ^ 7 <= L1 < 10 ^ 8 -> 10 ^ 8 <= L2 < 10 ^ 9 ->
  L2 / 10 ^ 8 < L1 / 10 ^ 7 ->
  L1 < L2 /\
  String.compare (make_sortKey base L2) (make_sortKey base L1) = Lt.
Proof.
  intros H1 H2 Hd. split; [lia|].
  unfold make_sortKey. rewrite !compare_app_prefix.
  rewrite (leftPad_fixed L1 8) by (cbn; lia).
  unfold leftPad. rewrite (toString_digits L2 9) by (cbn; lia).
  rewrite leftPad_loop_zeros by (rewrite length_fixed; lia).
  rewrite length_fixed. cbn [Nat.sub zeros]. string_app.
  change (fixed 9 L2) with
    (String (Js.digit_char (L2 / 10 ^ 8 mod 10)) (fixed 8 L2)).
  change (fixed 8 L1) with
    (String (Js.digit_char (L1 / 10 ^ 7 mod 10)) (fixed 7 L1)).
  cbn [String.compare].
  assert (0 <= L2 / 10 ^ 8 < 10).
  { split; [apply Z.div_pos; lia | apply Z.div_lt_upper_bound; lia]. }
  assert (0 <= L1 / 10 ^ 7 < 10).
  { split; [apply Z.div_pos; lia | apply Z.div_lt_upper_bound; lia]. }
  rewrite digit_char_compare by (rewrite Z.mod_small; lia).
  rewrite !Z.mod_small by lia.
  apply Z.compare_lt_iff in Hd. now rewrite Hd.
Qed.

Lemma sortKey_order_lost_at_nine_digits_witness :
  String.compare (make_sortKey "a.js" 100000000) (make_sortKey "a.js" 99999999) = Lt.
Proof.
  refine (proj2 (sortKey_order_lost_at_nine_digits "a.js" 99999999 100000000 _ _ _));
    [cbn; lia | cbn; lia | reflexivity].
Defined.

End LeftPad.

(** ** The visited key *)

Section VisitedKey.

Local Open Scope string_scope.

Ltac string_app := rewrite ?app_cons_string, ?app_nil_string.

Lemma compare_refl_string (s : string) : String.compare s s = Eq.
Proof.
  induction s as [|c s IH]; cbn; [reflexivity|].
  unfold Ascii.compare. now rewrite N.compare_refl.
Qed.

Lemma fixed_inj m a b :
  0 <= a < 10 ^ Z.of_nat m -> 0 <= b < 10 ^ Z.of_nat m ->
  fixed m a = fixed m b -> a = b.
Proof.
  intros Ha Hb Heq.
  destruct (Z.lt_trichotomy a b) as [Hlt|[->|Hgt]]; [|reflexivity|].
  - pose proof (fixed_compare m a b) as H.
    rewrite !Z.mod_small, Heq, compare_refl_string in H by lia.
    discriminate H; lia.
  - pose proof (fixed_compare m b a) as H.
    rewrite !Z.mod_small, Heq, compare_refl_string in H by lia.
    discriminate H; lia.
Qed.

Lemma digit_char_plain d :
  0 <= d < 10 ->
  Js.digit_char d <> "-"%char /\ Ascii.eqb (Js.digit_char d) ":" = false.
Proof.
  intros Hd.
  assert (E : d = 0 \/ d = 1 \/ d = 2 \/ d = 3 \/ d = 4 \/ d = 5 \/ d = 6 \/
              d = 7 \/ d = 8 \/ d = 9) by lia.
  repeat (destruct E as [-> | E]); try subst d; split; (discriminate || reflexivity).
Qed.

Lemma colon_free_fixed m n : colon_free (fixed m n) = true.
Proof.
  induction m as [|m IH]; [reflexivity|]. cbn [fixed colon_free].
  rewrite IH, andb_true_r.
  destruct (digit_char_plain (n / 10 ^ Z.of_nat m mod 10)) as [_ ->];
    [apply Z.mod_pos_bound; lia | reflexivity].
Qed.

Lemma toString_negative n :
  n < 0 -> Js.Number_toString n = String "-" (Js.Number_toString (- n)).
Proof.
  intros Hn. unfold Js.Number_toString.
  destruct (Z.ltb_spec n 0) as [_|?]; [|lia].
  destruct (Z.ltb_spec (- n) 0) as [?|_]; [lia|]. reflexivity.
Qed.

Lemma colon_free_toString n : colon_free (Js.Number_toString n) = true.
Proof.
  destruct (Z.lt_ge_cases n 0) as [Hn|Hn].
  - rewrite toString_negative by assumption. cbn [colon_free].
    destruct (toString_fixed (- n)) as (m & _ & _ & _ & ->); [lia|].
    now rewrite colon_free_fixed.
  - destruct (toString_fixed n) as (m & _ & _ & _ & ->); [lia|].
    apply colon_free_fixed.
Qed.

Lemma toString_nonneg_inj a b :
  0 <= a -> 0 <= b -> Js.Number_toString a = Js.Number_toString b -> a = b.
Proof.
  intros Ha Hb.
  destruct (toString_fixed a Ha) as (ma & _ & Ha2 & _ & ->).
  destruct (toString_fixed b Hb) as (mb & _ & Hb2 & _ & ->).
  intros Heq. assert (ma = mb) as ->.
  { rewrite <- (length_fixed ma a), <- (length_fixed mb b). now rewrite Heq. }
  eapply fixed_inj; [| |exact Heq]; lia.
Qed.

Lemma toString_nonneg_head n :
  0 <= n -> exists c rest, Js.Number_toString n = String c rest /\ c <> "-"%char.
Proof.
  intros Hn. destruct (toString_fixed n Hn) as ([|m] & Hm & _ & _ & ->); [lia|].
  cbn [fixed]. eexists _, _. split; [reflexivity|].
  apply digit_char_plain, Z.mod_pos_bound. lia.
Qed.

(** The decimal numeral determines the number. *)
Lemma toString_inj a b : Js.Number_toString a = Js.Number_toString b -> a = b.
Proof.
  destruct (Z.lt_ge_cases a 0) as [Ha|Ha], (Z.lt_ge_cases b 0) as [Hb|Hb].
  - rewrite (toString_negative a), (toString_negative b) by assumption.
    intros H. injection H as H. apply toString_nonneg_inj in H; lia.
  - rewrite (toString_negative a) by assumption.
    destruct (toString_nonneg_head b Hb) as (c & rest & -> & Hc).
    intros H. injection H as H _. congruence.
  - rewrite (toString_negative b) by assumption.
    destruct (toString_nonneg_head a Ha) as (c & rest & -> & Hc).
    intros H. injection H as H _. congruence.
  - now apply toString_nonneg_inj.
Qed.

Lemma colon_free_after_colon (a y : string) : colon_free (a ++ String ":" y) = false.
Proof.
  induction a as [|c a IH]; string_app; cbn [colon_free]; [reflexivity|].
  rewrite IH. apply andb_false_r.
Qed.

(** Cutting at the last colon. *)
Lemma split_at_last_colon (a : string) : forall b x y,
  colon_free x = true -> colon_free y = true ->
  a ++ String ":" x = b ++ String ":" y -> a = b /\ x = y.
Proof.
  induction a as [|c a IH]; intros [|c' b] x y Hx Hy; string_app; intros H.
  - injection H as ->. split; reflexivity.
  - injection H as <- ->. now rewrite colon_free_after_colon in Hx.
  - injection H as -> <-. now rewrite colon_free_after_colon in Hy.
  - injection H as -> H. destruct (IH b x y Hx Hy H) as [-> ->].
    split; reflexivity.
Qed.

Lemma visited_key_inj data cl data' cl' :
  visited_key data cl = visited_key data' cl' ->
  file data = file data' /\
  line (start cl) = line (start cl') /\
  column (start cl) = column (start cl').
Proof.
  unfold visited_key. intros H.
  change (file data ++ ":" ++ ?l ++ ":" ++ ?c)
    with (file data ++ String ":" (l ++ String ":" c)) in H.
  change (file data' ++ ":" ++ ?l ++ ":" ++ ?c)
    with (file data' ++ String ":" (l ++ String ":" c)) in H.
  rewrite <- !app_cons_string, <- !app_assoc_string in H.
  apply split_at_last_colon in H as [H Hc]; try apply colon_free_toString.
  apply split_at_last_colon in H as [Hf Hl]; try apply colon_free_toString.
  auto using toString_inj.
Qed.

(** X3. The visited key is injective: two comments have the same key only
    if they are in the same file and start at the same line and column,
    whatever colons the file name contains. *)
Theorem visited_key_injective data cl data' cl' :
  visited_key data cl = visited_key data' cl' <->
  file data = file data' /\
  line (start cl) = line (start cl') /\
  column (start cl) = column (start cl').
Proof.
  split; [apply visited_key_inj|].
  intros (Hf & Hl & Hc). unfold visited_key. now rewrite Hf, Hl, Hc.
Qed.

End VisitedKey.

(** ** Effects of one callback invocation *)

Section AddCommentEffects.

Variable parse : string -> SourceLocation -> Object -> Parsed.
Variable findTarget : NodePath -> option NodePath.
Variable isClassMethod : NodePath -> bool.

Abbreviation addComment := (_addComment parse findTarget isClassMethod).
Abbreviation later := (after_calls parse findTarget isClassMethod).

Ltac run_monad :=
  unfold mbind, M_bind, mret, M_ret, visited_has, visited_add, call_parse,
    commentsByNode_set, commentsByNode_get, debuglog, read_comment,
    set_constructorComment, member, throw; cbn.

Ltac all_paths data cl path ic s :=
  unfold _addComment; run_monad;
  destruct (bool_decide_reflect (visited_key data cl ∈ visited s)) as [?Hseen|?Hnew];
  cbn;
  [| destruct ic; cbn;
     [ destruct (isClassMethod path) eqn:?Hcm; cbn;
       [ destruct (node path) as [the_node|] eqn:?Hnode; cbn;
         [ destruct (bool_decide_reflect (kind the_node = Some "constructor"%string))
             as [?Hkind|?Hkind]; cbn;
           [ rewrite ?lookup_app_r, ?Nat.sub_diag by reflexivity; cbn;
             destruct (hideconstructor _) eqn:?Hhide; cbn;
             (destruct (parentPath path) as [the_parent|] eqn:?Hparent; cbn;
              [ destruct (parentPath the_parent) as [the_class|] eqn:?Hclass; cbn;
                [ destruct (_ !! _) as [?pc|] eqn:?Hget; cbn | ] | ])
           | ]
         | ]
       | ]
     | ] ].

(** The parser is called once when the comment is new, with the context
    built for it, and not at all otherwise, on every path through the
    function. *)
Lemma addComment_parse_calls data v cl path nl ic s :
  parse_calls (snd (addComment data v cl path nl ic s))
  = parse_calls s ++
      (if bool_decide (visited_key data cl ∈ visited s) then []
       else [{| pc_value := v; pc_loc := cl;
                pc_context := build_context data path nl ic |}]).
Proof.
  all_paths data cl path ic s; rewrite ?app_nil_r; reflexivity.
Qed.


Lemma later_cons c calls s :
  later (c :: calls) s
  = later calls
      (snd (addComment (c_data c) (d_value (c_found c)) (d_loc (c_found c))
              (d_path (c_found c)) (d_nodeLoc (c_found c)) (c_includeContext c) s)).
Proof. reflexivity. Qed.

(** X4. Only the same position deduplicates: a comment whose key is not in
    the visited set is still unseen after any sequence of calls none of
    which is for its file, start line and start column, and the call for
    it then invokes the content parser. *)
Theorem other_positions_stay_unseen calls data' v' cl' path' nl' ic' s :
  visited_key data' cl' ∉ visited s ->
  Forall (fun c =>
            ~ (file (c_data c) = file data' /\
               line (start (d_loc (c_found c))) = line (start cl') /\
               column (start (d_loc (c_found c))) = column (start cl')))
         calls ->
  (visited_key data' cl' ∉ visited (later calls s)) /\
  parse_calls (snd (addComment data' v' cl' path' nl' ic' (later calls s)))
  = parse_calls (later calls s) ++
      [{| pc_value := v'; pc_loc := cl';
          pc_context := build_context data' path' nl' ic' |}].
Proof.
  intros Hnew Hcalls.
  assert (Hstill : visited_key data' cl' ∉ visited (later calls s)).
  { revert s Hnew. induction Hcalls as [|c calls Hc _ IH]; intros s Hnew;
      [exact Hnew|].
    rewrite later_cons. apply IH. rewrite addComment_visited.
    apply not_elem_of_union. split; [|exact Hnew].
    rewrite elem_of_singleton. intros Heq. apply Hc.
    symmetry in Heq. now apply visited_key_inj in Heq. }
  split; [exact Hstill|].
  rewrite addComment_parse_calls, bool_decide_eq_false_2 by exact Hstill.
  reflexivity.
Qed.

(** X6. The diagnostic: a call writes the note about an explicitly
    documented constructor exactly when the comment is new, context
    capture is on, the path is a constructor's, and the parsed comment is
    not marked hideconstructor; every other call leaves the diagnostics
    as they are. *)
Theorem diagnostics_written data v cl path nl ic s :
  diagnostics (snd (addComment data v cl path nl ic s))
  = diagnostics s ++
      (if negb (bool_decide (visited_key data cl ∈ visited s))
          && constructor_call isClassMethod path ic
          && negb (hideconstructor (parse v cl (build_context data path nl ic)))
       then [constructor_note] else []).
Proof.
  unfold constructor_call.
  all_paths data cl path ic s; rewrite ?app_nil_r;
    rewrite ?bool_decide_eq_true_2, ?bool_decide_eq_false_2 by assumption;
    rewrite ?Hhide; cbn; rewrite ?app_nil_r, ?andb_false_r; reflexivity.
Qed.


End AddCommentEffects.

(** ** Invariants over sequences of invocations *)

Section Sequences.

Variable parse : string -> SourceLocation -> Object -> Parsed.
Variable findTarget : NodePath -> option NodePath.
Variable isClassMethod : NodePath -> bool.

Abbreviation addComment := (_addComment parse findTarget isClassMethod).
Abbreviation later := (after_calls parse findTarget isClassMethod).

Ltac run_monad :=
  unfold mbind, M_bind, mret, M_ret, visited_has, visited_add, call_parse,
    commentsByNode_set, commentsByNode_get, debuglog, read_comment,
    set_constructorComment, member, throw; cbn.

Ltac all_paths data cl path ic s :=
  unfold _addComment; run_monad;
  destruct (bool_decide_reflect (visited_key data cl ∈ visited s)) as [?Hseen|?Hnew];
  cbn;
  [| destruct ic; cbn;
     [ destruct (isClassMethod path) eqn:?Hcm; cbn;
       [ destruct (node path) as [the_node|] eqn:?Hnode; cbn;
         [ destruct (bool_decide_reflect (kind the_node = Some "constructor"%string))
             as [?Hkind|?Hkind]; cbn;
           [ rewrite ?lookup_app_r, ?Nat.sub_diag by reflexivity; cbn;
             destruct (hideconstructor _) eqn:?Hhide; cbn;
             (destruct (parentPath path) as [the_parent|] eqn:?Hparent; cbn;
              [ destruct (parentPath the_parent) as [the_class|] eqn:?Hclass; cbn;
                [ destruct (_ !! _) as [?pc|] eqn:?Hget; cbn | ] | ])
           | ]
         | ]
       | ]
     | ] ].

(** What a call can do to the heap. *)
Lemma addComment_heap_shape data v cl path nl ic s :
  heap (snd (addComment data v cl path nl ic s)) = heap s \/
  exists new,
    heap (snd (addComment data v cl path nl ic s)) = heap s ++ [new] \/
    exists parentComment,
      heap (snd (addComment data v cl path nl ic s))
      = alter (with_constructorComment (length (heap s))) parentComment
          (heap s ++ [new]).
Proof.
  all_paths data cl path ic s;
    first [ left; reflexivity
          | right; eexists; left; reflexivity
          | right; eexists; right; eexists; reflexivity ].
Qed.

Lemma addComment_keeps_record data v cl path nl ic s r c :
  heap s !! r = Some c ->
  exists c', heap (snd (addComment data v cl path nl ic s)) !! r = Some c' /\
    parsed c' = parsed c /\
    (is_Some (constructorComment c) -> is_Some (constructorComment c')).
Proof.
  intros Hr.
  destruct (addComment_heap_shape data v cl path nl ic s)
    as [->|(new & [->|(pc & ->)])].
  - exists c. auto.
  - exists c. split; [now apply lookup_app_l_Some | auto].
  - destruct (decide (pc = r)) as [->|Hne].
    + exists (with_constructorComment (length (heap s)) c).
      split; [|split; [reflexivity|eauto]].
      rewrite list_lookup_alter_eq. now erewrite lookup_app_l_Some by exact Hr.
    + exists c. rewrite list_lookup_alter_ne by exact Hne.
      split; [now apply lookup_app_l_Some | auto].
Qed.

(** X8. Records are only ever extended: over any sequence of calls, a
    comment object that is in the heap stays where it is and keeps the
    fields the parser gave it, and a [constructorComment] it has is never
    taken away again. *)
Theorem records_keep_their_fields calls : forall s r c,
  heap s !! r = Some c ->
  exists c',
    heap (after_calls parse findTarget isClassMethod calls s) !! r = Some c' /\
    parsed c' = parsed c /\
    (is_Some (constructorComment c) -> is_Some (constructorComment c')).
Proof.
  induction calls as [|k calls IH]; intros s r c Hr; [exists c; auto|].
  rewrite later_cons.
  destruct (addComment_keeps_record (c_data k) (d_value (c_found k))
              (d_loc (c_found k)) (d_path (c_found k)) (d_nodeLoc (c_found k))
              (c_includeContext k) s r c Hr) as (c1 & H1 & Hp1 & Hc1).
  destruct (IH _ r c1 H1) as (c' & H' & Hp' & Hc').
  exists c'. split; [exact H'|]. split; [congruence | auto].
Qed.

Lemma size_visited_add (key : string) (X : gset string) :
  size ({[key]} ∪ X) = (size X + (if bool_decide (key ∈ X) then 0 else 1))%nat.
Proof.
  destruct (bool_decide_reflect (key ∈ X)) as [Hin|Hout].
  - rewrite (subseteq_union_1_L {[key]} X) by now apply singleton_subseteq_l.
    lia.
  - rewrite size_union by now apply disjoint_singleton_l.
    rewrite size_singleton. lia.
Qed.

End Sequences.

(** ** Passes and the returned sequence *)

Section Passes.

Variable parse : string -> SourceLocation -> Object -> Parsed.
Variable findTarget : NodePath -> option NodePath.
Variable isClassMethod : NodePath -> bool.
Variable Ast : Type.
Variable parseToAst : string -> Completion Ast.
Variable discovered : string -> Ast -> list Discovery.
Variable exported : Ast -> Data -> list Call.

Abbreviation addComment := (_addComment parse findTarget isClassMethod).
Abbreviation walk := (walkComments Ast discovered).
Abbreviation walk_exported := (walkExported Ast exported).
Abbreviation parse_file :=
  (parseJavaScript parse findTarget isClassMethod Ast parseToAst discovered exported).

(** Results in creation order between two heap sizes. *)
Let ascending (lo : nat) (rs : list (option Ref)) (hi : nat) : Prop :=
  (lo <= hi)%nat /\
  StronglySorted lt (omap id rs) /\
  Forall (fun r => (lo <= r < hi)%nat) (omap id rs).

Lemma ascending_nil lo : ascending lo [] lo.
Proof. repeat split; [lia | constructor | constructor]. Qed.

Lemma ascending_cons lo mid hi (o : option Ref) rs :
  (lo <= mid)%nat -> (forall r, o = Some r -> r = lo /\ (r < mid)%nat) ->
  ascending mid rs hi -> ascending lo (o :: rs) hi.
Proof.
  intros Hle Ho (Hmh & Hs & Hb).
  assert (Hb' : Forall (fun r => (lo <= r < hi)%nat) (omap id rs)).
  { eapply Forall_impl; [exact Hb|]. cbn. lia. }
  destruct o as [r|]; cbn; [|repeat split; [lia | assumption | assumption]].
  destruct (Ho r eq_refl) as [-> Hlt].
  repeat split; [lia | | constructor; [lia | assumption]].
  constructor; [assumption|]. eapply Forall_impl; [exact Hb|]. cbn. lia.
Qed.

Lemma ascending_app lo mid hi rs1 rs2 :
  ascending lo rs1 mid -> ascending mid rs2 hi -> ascending lo (rs1 ++ rs2) hi.
Proof.
  intros (H1 & Hs1 & Hb1) (H2 & Hs2 & Hb2). unfold ascending.
  rewrite omap_app. repeat split; [lia | |].
  - apply StronglySorted_app_2; [|assumption|assumption].
    intros x1 x2 Hx1 Hx2.
    rewrite Forall_forall in Hb1, Hb2.
    specialize (Hb1 x1 Hx1). specialize (Hb2 x2 Hx2). lia.
  - apply Forall_app. split; (eapply Forall_impl; [eassumption|]); cbn; lia.
Qed.

Lemma ascending_filter lo hi rs (P : option Ref -> bool) :
  ascending lo rs hi -> ascending lo (List.filter P rs) hi.
Proof.
  intros (H & Hs & Hb). split; [exact H|].
  clear H. induction rs as [|o rs IH]; [split; assumption|].
  cbn [List.filter]. destruct o as [r|]; cbn in Hs, Hb.
  - apply StronglySorted_cons in Hs as [Hall Hs].
    apply Forall_cons in Hb as [Hr Hb].
    destruct (IH Hs Hb) as [IHs IHb].
    destruct (P (Some r)); [|split; assumption]. cbn.
    split; [|constructor; assumption].
    constructor; [assumption|].
    clear - Hall. induction rs as [|o rs IH]; [constructor|].
    cbn [List.filter]. destruct o as [r'|]; cbn in Hall.
    + apply Forall_cons in Hall as [? ?].
      destruct (P (Some r')); cbn; [constructor|]; auto.
    + destruct (P None); cbn; auto.
  - destruct (IH Hs Hb) as [IHs IHb]. destruct (P None); cbn; split; assumption.
Qed.

Lemma mapM_ascending {A} (g : A -> M (option Ref)) :
  (forall x s,
     (length (heap s) <= length (heap (snd (g x s))))%nat /\
     forall r, fst (g x s) = Return (Some r) ->
       r = length (heap s) /\ (r < length (heap (snd (g x s))))%nat) ->
  forall xs s,
    (length (heap s) <= length (heap (snd (mapM g xs s))))%nat /\
    forall rs, fst (mapM g xs s) = Return rs ->
      ascending (length (heap s)) rs (length (heap (snd (mapM g xs s)))).
Proof.
  intros Hg xs. induction xs as [|x xs IH]; intros s.
  - cbn. split; [lia|]. intros rs [= <-]. apply ascending_nil.
  - rewrite mapM_cons_run. destruct (Hg x s) as [Hle Hfresh].
    destruct (g x s) as [[o|e] s1]; cbn in *; [|split; [lia | discriminate]].
    destruct (IH s1) as [Hle1 Hasc1].
    destruct (mapM g xs s1) as [[ys|e] s2]; cbn in *; [|split; [lia | discriminate]].
    split; [lia|]. intros rs [= <-].
    apply (ascending_cons _ (length (heap s1))); [lia | | now apply Hasc1].
    intros r ->. now apply Hfresh.
Qed.

Lemma addComment_fresh data v cl path nl ic s :
  (length (heap s) <= length (heap (snd (addComment data v cl path nl ic s))))%nat /\
  forall r, fst (addComment data v cl path nl ic s) = Return (Some r) ->
    r = length (heap s) /\
    (r < length (heap (snd (addComment data v cl path nl ic s))))%nat.
Proof.
  split; [apply addComment_heap_length|]. intros r Hr.
  split; [eapply addComment_returns_fresh; exact Hr|].
  apply lookup_lt_is_Some. eapply addComment_returns_valid; exact Hr.
Qed.

Lemma walkComments_ascending type ic ast data s :
  (length (heap s) <= length (heap (snd (walk type ic ast data addComment s))))%nat /\
  forall rs, fst (walk type ic ast data addComment s) = Return rs ->
    ascending (length (heap s)) rs
      (length (heap (snd (walk type ic ast data addComment s)))).
Proof. apply mapM_ascending. intros d s'. apply addComment_fresh. Qed.

Lemma walkExported_ascending ast data s :
  (length (heap s) <= length (heap (snd (walk_exported ast data addComment s))))%nat /\
  forall rs, fst (walk_exported ast data addComment s) = Return rs ->
    ascending (length (heap s)) rs
      (length (heap (snd (walk_exported ast data addComment s)))).
Proof. apply mapM_ascending. intros c s'. apply addComment_fresh. Qed.

Lemma ascending_NoDup (l : list nat) : StronglySorted lt l -> NoDup l.
Proof.
  induction 1 as [|a l _ IH Hall]; constructor; [|exact IH].
  intros Hin. rewrite Forall_forall in Hall. specialize (Hall a Hin). lia.
Qed.

(** X10. The returned sequence is in creation order: the records
    [parseJavaScript] returns are comment objects created during this very
    run, listed in strictly ascending order of creation, so none is
    returned twice and none comes from earlier processing. *)
Theorem output_in_creation_order data config w :
  match parse_file data config w with
  | (Return out, w') =>
      StronglySorted lt out /\ NoDup out /\
      Forall (fun r => (length (w_heap w) <= r < length (w_heap w'))%nat) out
  | (Throw _, _) => True
  end.
Proof.
  rewrite parseJavaScript_unfold.
  destruct (parseToAst (source data)) as [ast|e]; [|exact I]. cbn zeta.
  assert (Hdone : forall rs s,
            ascending (length (w_heap w)) rs (length (heap s)) ->
            let out := omap id (List.filter (keep (heap s)) rs) in
            StronglySorted lt out /\ NoDup out /\
            Forall (fun r => (length (w_heap w) <= r < length (heap s))%nat) out).
  { intros rs s Hasc.
    destruct (ascending_filter _ _ _ (keep (heap s)) Hasc) as (_ & Hs & Hb).
    cbn zeta. auto using ascending_NoDup. }
  destruct (documentExported config); unfold mbind, M_bind.
  - destruct (walkExported_ascending ast data (enter w)) as [_ He].
    destruct (walkExported _ _ _ _ _ _) as [[es|e] s1]; cbn in *; [|exact I].
    apply Hdone, He. reflexivity.
  - destruct (walkComments_ascending "leadingComments" true ast data (enter w))
      as [_ H1].
    destruct (walkComments _ _ "leadingComments" _ _ _ _ _) as [[ls|e] s1];
      cbn in *; [|exact I].
    destruct (walkComments_ascending "innerComments" false ast data s1) as [_ H2].
    destruct (walkComments _ _ "innerComments" _ _ _ _ _) as [[ns|e] s2];
      cbn in *; [|exact I].
    destruct (walkComments_ascending "trailingComments" false ast data s2) as [_ H3].
    destruct (walkComments _ _ "trailingComments" _ _ _ _ _) as [[ts|e] s3];
      cbn in *; [|exact I].
    apply Hdone.
    eapply ascending_app; [apply H1; reflexivity|].
    eapply ascending_app; [apply H2; reflexivity | apply H3; reflexivity].
Qed.

End Passes.

(** ** Comments found more than once *)

Section Repeats.

Variable parse : string -> SourceLocation -> Object -> Parsed.
Variable findTarget : NodePath -> option NodePath.
Variable isClassMethod : NodePath -> bool.
Variable Ast : Type.
Variable parseToAst : string -> Completion Ast.
Variable discovered : string -> Ast -> list Discovery.
Variable exported : Ast -> Data -> list Call.

Abbreviation addComment := (_addComment parse findTarget isClassMethod).
Abbreviation walk := (walkComments Ast discovered).
Abbreviation parse_file :=
  (parseJavaScript parse findTarget isClassMethod Ast parseToAst discovered exported).

Abbreviation visit data ic :=
  (fun d : Discovery =>
     addComment data (d_value d) (d_loc d) (d_path d) (d_nodeLoc d) ic).

(** A pass that returns has seen all its comments, and forgets none. *)
Lemma pass_marks_visited data ic ds : forall s rs,
  fst (mapM (visit data ic) ds s) = Return rs ->
  visited s ⊆ visited (snd (mapM (visit data ic) ds s)) /\
  Forall (fun k => k ∈ visited (snd (mapM (visit data ic) ds s))) (keys_of data ds).
Proof.
  induction ds as [|d ds IH]; intros s rs.
  - cbn. intros _. split; [reflexivity | constructor].
  - rewrite mapM_cons_run.
    pose proof (addComment_visited parse findTarget isClassMethod data (d_value d)
                  (d_loc d) (d_path d) (d_nodeLoc d) ic s) as Hv.
    destruct (visit data ic d s) as [[o|e] s1]; cbn in *; [|discriminate].
    specialize (IH s1).
    destruct (mapM (visit data ic) ds s1) as [[ys|e] s2]; cbn in *; [|discriminate].
    intros _. destruct (IH ys eq_refl) as [Hsub Hall].
    split; [|constructor; [|exact Hall]].
    + etransitivity; [|exact Hsub]. rewrite Hv. apply union_subseteq_r.
    + apply Hsub. rewrite Hv. apply elem_of_union_l, elem_of_singleton.
      reflexivity.
Qed.

(** A pass over comments that were all seen returns absent for each and
    changes nothing. *)
Lemma pass_over_seen data ic ds : forall s,
  Forall (fun k => k ∈ visited s) (keys_of data ds) ->
  mapM (visit data ic) ds s = (Return (replicate (length ds) None), s).
Proof.
  induction ds as [|d ds IH]; intros s Hall; [reflexivity|].
  apply Forall_cons in Hall as [Hd Hall].
  rewrite mapM_cons_run, addComment_seen by exact Hd.
  now rewrite IH.
Qed.

Lemma filter_absent h n : List.filter (keep h) (replicate n None) = [].
Proof. induction n as [|n IH]; [reflexivity | exact IH]. Qed.

(** X11. A repeated pass is a no-op: after a pass that returned, a pass
    over comments whose keys are all among those of the first pass, with
    any comment category and capture flag, returns absent for every
    comment and leaves the store as it is. *)
Theorem repeated_pass_is_noop type ic type' ic' ast data s rs :
  fst (walk type ic ast data addComment s) = Return rs ->
  keys_of data (discovered type' ast) ⊆ keys_of data (discovered type ast) ->
  walk type' ic' ast data addComment (snd (walk type ic ast data addComment s))
  = (Return (replicate (length (discovered type' ast)) None),
     snd (walk type ic ast data addComment s)).
Proof.
  unfold walkComments. intros Hret Hsub.
  apply pass_over_seen. apply Forall_forall. intros k Hk.
  destruct (pass_marks_visited data ic (discovered type ast) s rs Hret) as [_ Hall].
  rewrite Forall_forall in Hall. apply Hall, Hsub, Hk.
Qed.

(** X12. Double visits add nothing: when every inner and every trailing
    comment has the key of some leading comment, the run is the leading
    pass followed by the filter: the same result and the same world as if
    the other two passes had found nothing. *)
Theorem double_visits_add_nothing data config w ast :
  documentExported config = false ->
  parseToAst (source data) = Return ast ->
  keys_of data (discovered "innerComments" ast)
    ⊆ keys_of data (discovered "leadingComments" ast) ->
  keys_of data (discovered "trailingComments" ast)
    ⊆ keys_of data (discovered "leadingComments" ast) ->
  parse_file data config w =
    let run : M (list Ref) :=
      ls ← walk "leadingComments" true ast data addComment;
      filter_comments ls in
    (fst (run (enter w)), leave (snd (run (enter w)))).
Proof.
  intros Hcfg Hast Hinner Htrailing.
  rewrite parseJavaScript_unfold, Hast, Hcfg. cbn zeta.
  unfold mbind, M_bind, walkComments.
  pose proof (pass_marks_visited data true (discovered "leadingComments" ast)
                (enter w)) as Hseen.
  destruct (mapM (visit data true) (discovered "leadingComments" ast) (enter w))
    as [[ls|e] s1]; cbn in *; [|reflexivity].
  destruct (Hseen ls eq_refl) as [_ Hall]. rewrite Forall_forall in Hall.
  rewrite (pass_over_seen data false (discovered "innerComments" ast) s1)
    by (apply Forall_forall; intros k Hk; apply Hall, Hinner, Hk).
  rewrite (pass_over_seen data false (discovered "trailingComments" ast) s1)
    by (apply Forall_forall; intros k Hk; apply Hall, Htrailing, Hk).
  unfold filter_comments. cbn.
  rewrite !List.filter_app, !filter_absent, !app_nil_r. reflexivity.
Qed.

End Repeats.

(** ** The context handed to the parser *)

Section ContextContent.

Variable parse : string -> SourceLocation -> Object -> Parsed.
Variable findTarget : NodePath -> option NodePath.
Variable isClassMethod : NodePath -> bool.

Abbreviation addComment := (_addComment parse findTarget isClassMethod).

Lemma length_substring (src : string) : forall n m,
  (n + m <= String.length src)%nat ->
  String.length (String.substring n m src) = m.
Proof.
  induction src as [|c src IH]; intros n m H; cbn in H.
  - destruct n, m; cbn; lia.
  - destruct n as [|n]; cbn.
    + destruct m as [|m]; cbn; [reflexivity|]. rewrite IH by lia. reflexivity.
    + apply IH. lia.
Qed.

(** X14. The source snippet is verbatim: for a new comment with context
    capture whose parent node lies within the source
    ([0 <= start <= end <= length]), the context handed to the parser has
    a [code] string of [end - start] characters whose [i]-th character is
    the source's character at offset [start + i]. *)
Theorem code_snippet_is_verbatim data v cl path nl s parent parentNode :
  visited_key data cl ∉ visited s ->
  parentPath path = Some parent -> node parent = Some parentNode ->
  0 <= node_start parentNode -> node_start parentNode <= node_end parentNode ->
  node_end parentNode <= Z.of_nat (String.length (source data)) ->
  exists ctx code,
    parse_calls (snd (addComment data v cl path nl true s))
    = parse_calls s ++ [{| pc_value := v; pc_loc := cl; pc_context := ctx |}] /\
    get_property ctx "code" = Some (plain (VString code)) /\
    Z.of_nat (String.length code) = node_end parentNode - node_start parentNode /\
    forall i, (i < String.length code)%nat ->
      String.get i code
      = String.get (i + Z.to_nat (node_start parentNode)) (source data).
Proof.
  intros Hnew Hp Hn H0 Hle Hlen.
  exists (build_context data path nl true),
    (Js.substring (source data) (node_start parentNode) (node_end parentNode)).
  split.
  { rewrite addComment_parse_calls, bool_decide_eq_false_2 by exact Hnew.
    reflexivity. }
  split; [unfold build_context; rewrite Hp, Hn; reflexivity|].
  rewrite substring_in_range by assumption.
  rewrite length_substring by lia. split; [lia|].
  intros i Hi. now apply String.substring_correct1.
Qed.

(** X15. What serialisation sees of the context: the context handed to
    the parser for a new comment enumerates [loc], [file] and [sortKey],
    then [code] when context capture is on and the parent path has a
    node, and nothing else; [loc] is the documented node's range (not the
    comment's), [file] the file name and [sortKey] the base key, a space
    and the node's start line padded to 8 digits. *)
Theorem context_enumerated_keys data v cl path nl ic s :
  visited_key data cl ∉ visited s ->
  exists ctx,
    parse_calls (snd (addComment data v cl path nl ic s))
    = parse_calls s ++ [{| pc_value := v; pc_loc := cl; pc_context := ctx |}] /\
    keys ctx
    = ["loc"; "file"; "sortKey"]%string ++
      (if ic && bool_decide (is_Some (parentPath path ≫= node))
       then ["code"%string] else []) /\
    get_property ctx "loc" = Some (plain (VLoc nl)) /\
    get_property ctx "file" = Some (plain (VString (file data))) /\
    get_property ctx "sortKey"
    = Some (plain (VString (sortKey data ++ " " ++ leftPad (line (start nl)) 8)%string)).
Proof.
  intros Hnew. exists (build_context data path nl ic). split.
  { rewrite addComment_parse_calls, bool_decide_eq_false_2 by exact Hnew.
    reflexivity. }
  unfold build_context, make_sortKey.
  destruct ic; [|repeat split; reflexivity].
  destruct (parentPath path) as [p|]; cbn; [|repeat split; reflexivity].
  destruct (node p) as [pn|]; cbn; repeat split; reflexivity.
Qed.

End ContextContent.

(** ** Order between base keys *)

Section BaseKeys.

Local Open Scope string_scope.

(** X16. The base key dominates: for two base keys of the same length,
    of which the first sorts strictly before the second, every sort key
    built on the first sorts strictly before every sort key built on the
    second, whatever the line numbers. *)
Theorem sortKey_base_dominates (base1 base2 : string) (L1 L2 : Z) :
  String.length base1 = String.length base2 ->
  String.compare base1 base2 = Lt ->
  String.compare (make_sortKey base1 L1) (make_sortKey base2 L2) = Lt.
Proof.
  unfold make_sortKey. generalize (" " ++ leftPad L1 8) (" " ++ leftPad L2 8).
  intros x y. revert base2.
  induction base1 as [|c b1 IH]; intros [|c' b2] Hlen Hlt; try discriminate.
  rewrite !app_cons_string. cbn [String.compare] in *.
  destruct (Ascii.compare c c'); [|reflexivity|discriminate].
  apply IH; [now injection Hlen | exact Hlt].
Qed.

Lemma sortKey_base_dominates_witness :
  String.compare (make_sortKey "000 a.js" 900) (make_sortKey "001 b.js" 1) = Lt.
Proof.
  apply (sortKey_base_dominates "000 a.js" "001 b.js" 900 1); reflexivity.
Defined.

End BaseKeys.

(** ** The entry point *)

Section Entry.

Variable parse : string -> SourceLocation -> Object -> Parsed.
Variable findTarget : NodePath -> option NodePath.
Variable isClassMethod : NodePath -> bool.
Variable Ast : Type.
Variable parseToAst : string -> Completion Ast.
Variable discovered : string -> Ast -> list Discovery.
Variable exported : Ast -> Data -> list Call.

Abbreviation parse_file :=
  (parseJavaScript parse findTarget isClassMethod Ast parseToAst discovered exported).
Abbreviation entry :=
  (module_exports parse findTarget isClassMethod Ast parseToAst discovered exported).

(** X17. An empty source counts as missing: when [sourceFile.source] is
    absent or the empty string, the file is read; a failing read
    propagates its error with the world and the descriptor untouched, and
    a successful one is stored in the descriptor and parsed. *)
Theorem empty_source_is_read readFileSync sourceFile config w :
  sf_source sourceFile = None \/ sf_source sourceFile = Some ""%string ->
  entry readFileSync sourceFile config w =
    match readFileSync (sf_file sourceFile) with
    | Throw e => (Throw e, w, sourceFile)
    | Return text =>
        (parse_file {| file := sf_file sourceFile; source := text;
                       sortKey := sf_sortKey sourceFile |} config w,
         {| sf_file := sf_file sourceFile; sf_source := Some text;
            sf_sortKey := sf_sortKey sourceFile |})
    end.
Proof.
  intros Hsrc. unfold module_exports, source_truthy.
  destruct Hsrc as [-> | ->]; cbn; destruct (readFileSync _); reflexivity.
Qed.

(** X18. The file is read once: after a call on a descriptor without
    source whose file has non-empty text, the descriptor carries that
    text, and a further call with it, in any world and on any file system
    (the file may have changed or gone), returns the same records and
    leaves the descriptor as it is. *)
Theorem source_is_read_once readFileSync readFileSync' sourceFile config w w' text depth :
  source_truthy sourceFile = false ->
  readFileSync (sf_file sourceFile) = Return text ->
  text <> ""%string ->
  let first := entry readFileSync sourceFile config w in
  let second := entry readFileSync' (snd first) config w' in
  sf_source (snd first) = Some text /\
  snd second = snd first /\
  returned_docs depth (fst second) = returned_docs depth (fst first).
Proof.
  intros Hfalsy Hread Htext. cbn zeta. unfold module_exports.
  rewrite Hfalsy, Hread. cbn [fst snd].
  assert (Htruthy : source_truthy (with_source sourceFile text) = true).
  { unfold source_truthy. cbn. apply negb_true_iff, String.eqb_neq, Htext. }
  rewrite Htruthy. cbn [fst snd]. repeat split.
  rewrite (returned_docs_relocated _ _ _ _ _ _ _ w').
  now rewrite (returned_docs_relocated _ _ _ _ _ _ _ w).
Qed.

End Entry.

(** ** Instances of the further properties *)

Lemma visited_key_injective_witness :
  visited_key Demo.data (Demo.at_line 1 0)
  = visited_key {| file := "foo.js"; source := ""; sortKey := "" |}
      {| start := {| line := 1; column := 0 |};
         finish := {| line := 9; column := 9 |} |}.
Proof.
  apply (proj2 (visited_key_injective Demo.data (Demo.at_line 1 0)
                  {| file := "foo.js"; source := ""; sortKey := "" |}
                  {| start := {| line := 1; column := 0 |};
                     finish := {| line := 9; column := 9 |} |})).
  repeat split; reflexivity.
Defined.

Lemma other_positions_stay_unseen_witness :
  visited_key Demo.data (Demo.at_line 1 23)
  ∉ visited (after_calls Demo.parse Demo.findTarget Demo.isClassMethod
               [Demo.call_of Demo.classDoc true] Demo.empty_store).
Proof.
  refine (proj1 (other_positions_stay_unseen Demo.parse Demo.findTarget
    Demo.isClassMethod [Demo.call_of Demo.classDoc true] Demo.data "ctor"
    (Demo.at_line 1 23) Demo.ctorPath (Demo.at_line 1 35) true
    Demo.empty_store _ _)).
  - apply not_elem_of_empty.
  - constructor; [|constructor]. intros (_ & _ & H). discriminate H.
Defined.

Lemma records_keep_their_fields_witness :
  exists c',
    heap (after_calls Demo.parse Demo.findTarget Demo.isClassMethod
            [Demo.call_of Demo.ctorDoc true] Demo.class_seen) !! 0%nat = Some c' /\
    parsed c' = parsed Demo.classComment /\
    (is_Some (constructorComment Demo.classComment) ->
     is_Some (constructorComment c')).
Proof.
  apply (records_keep_their_fields Demo.parse Demo.findTarget Demo.isClassMethod
           [Demo.call_of Demo.ctorDoc true] Demo.class_seen 0%nat
           Demo.classComment).
  reflexivity.
Defined.

Lemma doubleAst_keys :
  keys_of Demo.data (Demo.discovered "trailingComments" Cases.doubleAst)
  ⊆ keys_of Demo.data (Demo.discovered "leadingComments" Cases.doubleAst).
Proof.
  intros k Hk. apply list_elem_of_In. apply list_elem_of_In in Hk.
  destruct Hk as [<-|[<-|[]]]; [right; left | left]; reflexivity.
Qed.

Lemma doubleAst_inner_keys :
  keys_of Demo.data (Demo.discovered "innerComments" Cases.doubleAst)
  ⊆ keys_of Demo.data (Demo.discovered "leadingComments" Cases.doubleAst).
Proof. intros k Hk. apply list_elem_of_In in Hk. destruct Hk. Qed.

Lemma repeated_pass_is_noop_witness :
  fst (walkComments Demo.Ast Demo.discovered "trailingComments" false
         Cases.doubleAst Demo.data Demo.addComment
         (snd (walkComments Demo.Ast Demo.discovered "leadingComments" true
                 Cases.doubleAst Demo.data Demo.addComment Demo.empty_store)))
  = Return [None; None].
Proof.
  unfold Demo.addComment.
  rewrite (repeated_pass_is_noop Demo.parse Demo.findTarget Demo.isClassMethod
             Demo.Ast Demo.discovered "leadingComments" true "trailingComments"
             false Cases.doubleAst Demo.data Demo.empty_store
             [Some 0%nat; Some 1%nat]).
  - reflexivity.
  - reflexivity.
  - exact doubleAst_keys.
Defined.

Lemma double_visits_add_nothing_witness :
  fst (Cases.parse_file Cases.doubleAst empty_world) = Return [0%nat; 1%nat].
Proof.
  unfold Cases.parse_file.
  rewrite (double_visits_add_nothing Demo.parse Demo.findTarget
             Demo.isClassMethod Demo.Ast (Demo.parseToAst Cases.doubleAst)
             Demo.discovered Demo.exported Demo.data
             {| documentExported := false |} empty_world Cases.doubleAst).
  - reflexivity.
  - reflexivity.
  - reflexivity.
  - exact doubleAst_inner_keys.
  - exact doubleAst_keys.
Defined.

Lemma code_snippet_is_verbatim_witness :
  exists ctx code,
    get_property ctx "code" = Some (plain (VString code)) /\
    Z.of_nat (String.length code) = 32.
Proof.
  destruct (code_snippet_is_verbatim Demo.parse Demo.findTarget
    Demo.isClassMethod Demo.data "ctor" (Demo.at_line 1 23) Demo.ctorPath
    (Demo.at_line 1 35) Demo.class_seen Demo.bodyPath Demo.bodyNode)
    as (ctx & code & _ & Hcode & Hlen & _).
  - vm_compute. intros H. discriminate H.
  - reflexivity.
  - reflexivity.
  - cbn. lia.
  - cbn. lia.
  - cbn. lia.
  - exists ctx, code. split; [exact Hcode | exact Hlen].
Defined.

Lemma context_enumerated_keys_witness :
  exists ctx,
    parse_calls (snd (Demo.addComment Demo.data "ctor" (Demo.at_line 1 23)
                        Demo.ctorPath (Demo.at_line 1 35) true Demo.empty_store))
    = [{| pc_value := "ctor"; pc_loc := Demo.at_line 1 23; pc_context := ctx |}] /\
    keys ctx = ["loc"; "file"; "sortKey"; "code"]%string.
Proof.
  destruct (context_enumerated_keys Demo.parse Demo.findTarget
    Demo.isClassMethod Demo.data "ctor" (Demo.at_line 1 23) Demo.ctorPath
    (Demo.at_line 1 35) true Demo.empty_store) as (ctx & Hcalls & Hkeys & _).
  - apply not_elem_of_empty.
  - exists ctx. split; [exact Hcalls | exact Hkeys].
Defined.

Lemma empty_source_is_read_witness :
  Cases.entry Cases.no_file Cases.emptySourceFile
    {| documentExported := false |} empty_world
  = (Throw "ENOENT", empty_world, Cases.emptySourceFile).
Proof.
  unfold Cases.entry.
  rewrite (empty_source_is_read Demo.parse Demo.findTarget Demo.isClassMethod
             Demo.Ast (Demo.parseToAst Demo.classAst) Demo.discovered
             Demo.exported Cases.no_file Cases.emptySourceFile
             {| documentExported := false |} empty_world).
  - reflexivity.
  - right. reflexivity.
Defined.

Lemma source_is_read_once_witness :
  let first :=
    Cases.entry Cases.readFileSync Cases.fooFile
      {| documentExported := false |} empty_world in
  let second :=
    Cases.entry Cases.no_file (snd first) {| documentExported := false |}
      (snd (fst first)) in
  sf_source (snd first) = Some (source Demo.data) /\
  snd second = snd first /\
  returned_docs 2 (fst second) = returned_docs 2 (fst first).
Proof.
  apply (source_is_read_once Demo.parse Demo.findTarget Demo.isClassMethod
           Demo.Ast (Demo.parseToAst Demo.classAst) Demo.discovered
           Demo.exported Cases.readFileSync Cases.no_file Cases.fooFile
           {| documentExported := false |} empty_world).
  - reflexivity.
  - reflexivity.
  - discriminate.
Defined.

(** ** A content parser that may throw *)

(** With a parser that always returns, the functions of [Fallible] are
    the ones the properties above are about. *)
Lemma addComment_total_parser parse findTarget isClassMethod :
  Fallible._addComment (fun v l c => Return (parse v l c)) findTarget isClassMethod
  = _addComment parse findTarget isClassMethod.
Proof. reflexivity. Qed.

Lemma parseJavaScript_total_parser
    parse findTarget isClassMethod Ast parseToAst discovered exported :
  Fallible.parseJavaScript (fun v l c => Return (parse v l c)) findTarget
    isClassMethod Ast parseToAst discovered exported
  = parseJavaScript parse findTarget isClassMethod Ast parseToAst discovered exported.
Proof. reflexivity. Qed.

(** ** The constructor's comment over the rest of a run *)

Section ConstructorMerge.

Variable parse : string -> SourceLocation -> Object -> Parsed.
Variable findTarget : NodePath -> option NodePath.
Variable isClassMethod : NodePath -> bool.

Abbreviation addComment := (_addComment parse findTarget isClassMethod).
Abbreviation later := (after_calls parse findTarget isClassMethod).

Ltac run_monad :=
  unfold mbind, M_bind, mret, M_ret, visited_has, visited_add, call_parse,
    commentsByNode_set, commentsByNode_get, debuglog, read_comment,
    set_constructorComment, member, throw; cbn.





End ConstructorMerge.

(** *** The constructor's comment and the returned sequence *)

Section ConstructorMergeRun.

Variable parse : string -> SourceLocation -> Object -> Parsed.
Variable findTarget : NodePath -> option NodePath.
Variable isClassMethod : NodePath -> bool.
Variable Ast : Type.
Variable parseToAst : string -> Completion Ast.
Variable discovered : string -> Ast -> list Discovery.
Variable exported : Ast -> Data -> list Call.

Abbreviation addComment := (_addComment parse findTarget isClassMethod).
Abbreviation walk := (walkComments Ast discovered).
Abbreviation parse_file :=
  (parseJavaScript parse findTarget isClassMethod Ast parseToAst discovered exported).
Abbreviation visit data ic :=
  (fun d : Discovery =>
     addComment data (d_value d) (d_loc d) (d_path d) (d_nodeLoc d) ic).






End ConstructorMergeRun.




(** A class, and a constructor with two doc comments: one record is
    returned, the class's, and it carries the second of the two. *)
Example two_constructor_comments_run :
  fst (Cases.parse_file Cases.twoCtorDocsAst empty_world) = Return [0%nat] /\
  constructorComment <$> w_heap (snd (Cases.parse_file Cases.twoCtorDocsAst empty_world))
  = [Some 2%nat; None; None].
Proof. split; reflexivity. Qed.

(** ** Throwing, with a content parser that may throw *)

Section Throwing.

Variable parse : string -> SourceLocation -> Object -> Completion Parsed.
Variable findTarget : NodePath -> option NodePath.
Variable isClassMethod : NodePath -> bool.

Abbreviation addComment := (Fallible._addComment parse findTarget isClassMethod).
Abbreviation later := (Fallible.after_calls parse findTarget isClassMethod).

Ltac run_monad :=
  unfold mbind, M_bind, mret, M_ret, visited_has, visited_add,
    Fallible.call_parse, commentsByNode_set, commentsByNode_get, debuglog,
    read_comment, set_constructorComment, member, throw; cbn.

(** Splits a call into the paths through the body, the parser's outcome
    included. *)
Ltac throwing_paths data v cl path nl ic s :=
  unfold Fallible._addComment; run_monad;
  destruct (bool_decide_reflect (visited_key data cl ∈ visited s)) as [?Hseen|?Hnew];
  cbn;
  [| destruct (parse v cl (build_context data path nl ic))
       as [the_parsed|the_error] eqn:?Hparse; cbn;
     [ destruct ic; cbn;
       [ destruct (isClassMethod path) eqn:?Hcm; cbn;
         [ destruct (node path) as [the_node|] eqn:?Hnode; cbn;
           [ destruct (bool_decide_reflect (kind the_node = Some "constructor"%string))
               as [?Hkind|?Hkind]; cbn;
             [ rewrite ?lookup_app_r, ?Nat.sub_diag by reflexivity; cbn;
               destruct (hideconstructor the_parsed) eqn:?Hhide; cbn;
               (destruct (parentPath path) as [the_parent|] eqn:?Hparent; cbn;
                [ destruct (parentPath the_parent) as [the_class|] eqn:?Hclass; cbn;
                  [ destruct (_ !! _) as [?pc|] eqn:?Hget; cbn | ] | ])
             | ]
           | ]
         | ]
       | ]
     | ] ].

Lemma throwing_seen data v cl path nl ic s :
  visited_key data cl ∈ visited s ->
  addComment data v cl path nl ic s = (Return None, s).
Proof.
  intros Hin. unfold Fallible._addComment. run_monad.
  rewrite bool_decide_eq_true_2 by assumption. reflexivity.
Qed.

Lemma throwing_visited data v cl path nl ic s :
  visited (snd (addComment data v cl path nl ic s))
  = {[visited_key data cl]} ∪ visited s.
Proof.
  throwing_paths data v cl path nl ic s; try reflexivity.
  symmetry. apply subseteq_union_1_L. now apply singleton_subseteq_l.
Qed.

(** X5. When the call throws: [_addComment] throws exactly on a new
    comment for which either the content parser throws, or context
    capture is on and the path passes [isClassMethod] and has no node or
    is a constructor without a parent path or without a grandparent path.
    By then the comment is marked visited, so a repeated call for it
    returns absent and changes nothing. *)
Theorem addComment_throws_iff data v cl path nl ic s :
  let call := Fallible._addComment parse findTarget isClassMethod data v cl path nl ic in
  ((exists e, fst (call s) = Throw e) <->
   (visited_key data cl ∉ visited s) /\
   ((exists e, parse v cl (build_context data path nl ic) = Throw e) \/
    (ic = true /\ isClassMethod path = true /\
     (node path = None \/
      (exists n, node path = Some n /\ kind n = Some "constructor"%string /\
         (parentPath path = None \/
          exists p, parentPath path = Some p /\ parentPath p = None)))))) /\
  (forall e v2 path2 nl2 ic2,
     fst (call s) = Throw e ->
     Fallible._addComment parse findTarget isClassMethod data v2 cl path2 nl2 ic2
       (snd (call s))
     = (Return None, snd (call s))).
Proof.
  cbn zeta. split.
  - throwing_paths data v cl path nl ic s; split;
      try (intros [e He]; discriminate He);
      try (intros (? & ?); contradiction);
      try (intros _; eexists; reflexivity);
      try (intros _; split; [assumption|]; left; eexists; reflexivity);
      try (intros _; split; [assumption|]; right; repeat split;
           solve [ left; reflexivity
                 | right; eexists; repeat split; try eassumption; eauto ]);
      intros (_ & [[e He]|(? & ? & [?|(n & Hn & Hk & Hp)])]); try congruence;
      try (destruct Hp as [?|(p & Hp1 & Hp2)]; congruence).
  - intros e v2 path2 nl2 ic2 _. apply throwing_seen.
    rewrite throwing_visited. apply elem_of_union_l, elem_of_singleton.
    reflexivity.
Qed.

Lemma throwing_later_cons c calls s :
  later (c :: calls) s
  = later calls
      (snd (addComment (c_data c) (d_value (c_found c)) (d_loc (c_found c))
              (d_path (c_found c)) (d_nodeLoc (c_found c)) (c_includeContext c) s)).
Proof. reflexivity. Qed.

(** What one call adds to the record of parser invocations and to the
    heap. *)
Lemma throwing_effects data v cl path nl ic s :
  let pc := {| pc_value := v; pc_loc := cl;
               pc_context := build_context data path nl ic |} in
  let new := if bool_decide (visited_key data cl ∈ visited s) then [] else [pc] in
  parse_calls (snd (addComment data v cl path nl ic s)) = parse_calls s ++ new /\
  length (heap (snd (addComment data v cl path nl ic s)))
  = (length (heap s) + length (List.filter (Fallible.parser_returns parse) new))%nat.
Proof.
  unfold Fallible.parser_returns. cbn zeta.
  throwing_paths data v cl path nl ic s;
    rewrite ?bool_decide_eq_true_2, ?bool_decide_eq_false_2 by assumption;
    cbn; rewrite ?Hparse; cbn;
    rewrite ?app_nil_r, ?length_alter, ?length_app; cbn;
    (split; [reflexivity | lia]).
Qed.

(** X9. One parse per key, one object per parse that returns: over any
    sequence of calls, whatever they return or throw, the keys added to
    the visited set are as many as the invocations of the content parser
    added, and the comment objects created are as many as those
    invocations on which the parser returned. *)
Theorem one_parse_per_key calls : forall s,
  let s' := Fallible.after_calls parse findTarget isClassMethod calls s in
  exists new_calls,
    parse_calls s' = parse_calls s ++ new_calls /\
    size (visited s') = (size (visited s) + length new_calls)%nat /\
    length (heap s')
    = (length (heap s)
       + length (List.filter (Fallible.parser_returns parse) new_calls))%nat.
Proof.
  induction calls as [|c calls IH]; intros s; cbn zeta.
  - exists []. cbn. rewrite app_nil_r. repeat split; lia.
  - rewrite throwing_later_cons.
    destruct (IH (snd (addComment (c_data c) (d_value (c_found c))
                         (d_loc (c_found c)) (d_path (c_found c))
                         (d_nodeLoc (c_found c)) (c_includeContext c) s)))
      as (rest & Hp & Hv & Hh).
    cbn zeta in Hp, Hv, Hh.
    destruct (throwing_effects (c_data c) (d_value (c_found c)) (d_loc (c_found c))
                (d_path (c_found c)) (d_nodeLoc (c_found c)) (c_includeContext c) s)
      as [Hp1 Hh1].
    cbn zeta in Hp1, Hh1.
    rewrite throwing_visited, size_visited_add in Hv.
    rewrite Hp1 in Hp. rewrite Hh1 in Hh.
    eexists (_ ++ rest). rewrite Hp, Hv, Hh, <- app_assoc.
    split; [reflexivity|]. rewrite List.filter_app, !length_app.
    destruct (bool_decide _); cbn; split; lia.
Qed.

End Throwing.

(** ** Where a run's errors come from *)

Section ThrowingRun.

Variable parse : string -> SourceLocation -> Object -> Completion Parsed.
Variable findTarget : NodePath -> option NodePath.
Variable isClassMethod : NodePath -> bool.
Variable Ast : Type.
Variable parseToAst : string -> Completion Ast.
Variable discovered : string -> Ast -> list Discovery.
Variable exported : Ast -> Data -> list Call.

Abbreviation addComment := (Fallible._addComment parse findTarget isClassMethod).
Abbreviation walk := (walkComments Ast discovered).
Abbreviation visit data :=
  (fun d : Discovery =>
     addComment data (d_value d) (d_loc d) (d_path d) (d_nodeLoc d) false).

Lemma throwing_without_context data v cl path nl s :
  addComment data v cl path nl false s =
    if bool_decide (visited_key data cl ∈ visited s) then (Return None, s)
    else
      let calls :=
        parse_calls s ++
          [{| pc_value := v; pc_loc := cl;
              pc_context := build_context data path nl false |}] in
      match parse v cl (build_context data path nl false) with
      | Return p =>
          (Return (Some (length (heap s))),
           {| visited := {[visited_key data cl]} ∪ visited s;
              commentsByNode := commentsByNode s;
              heap := heap s ++ [{| parsed := p; constructorComment := None |}];
              diagnostics := diagnostics s; parse_calls := calls |})
      | Throw e =>
          (Throw e,
           {| visited := {[visited_key data cl]} ∪ visited s;
              commentsByNode := commentsByNode s; heap := heap s;
              diagnostics := diagnostics s; parse_calls := calls |})
      end.
Proof.
  unfold Fallible._addComment, Fallible.call_parse, mbind, M_bind, mret, M_ret,
    visited_has, visited_add. cbn.
  destruct (bool_decide _); cbn; [reflexivity|].
  destruct (parse v cl (build_context data path nl false)); reflexivity.
Qed.

(** A pass without context capture throws only what the content parser
    throws on one of its comments. *)
Lemma plain_pass_throws data ds : forall s e,
  fst (mapM (visit data) ds s) = Throw e ->
  exists d, d ∈ ds /\
    parse (d_value d) (d_loc d) (build_context data (d_path d) (d_nodeLoc d) false)
    = Throw e.
Proof.
  induction ds as [|d ds IH]; intros s e; [discriminate|].
  rewrite mapM_cons_run, throwing_without_context.
  assert (Hrest : forall s1,
            fst (match mapM (visit data) ds s1 with
                 | (Return ys, s2) => (Return (None :: ys), s2)
                 | (Throw e0, s2) => (Throw e0, s2)
                 end) = Throw e \/
            (exists r, fst (match mapM (visit data) ds s1 with
                            | (Return ys, s2) => (Return (Some r :: ys), s2)
                            | (Throw e0, s2) => (Throw e0, s2)
                            end) = Throw e) ->
            exists d', d' ∈ d :: ds /\
              parse (d_value d') (d_loc d')
                (build_context data (d_path d') (d_nodeLoc d') false) = Throw e).
  { intros s1 H. specialize (IH s1 e).
    destruct (mapM (visit data) ds s1) as [[rs|e'] s']; cbn in *.
    - destruct H as [H|[r H]]; discriminate H.
    - assert (He : Throw e' = Throw (A:=list (option Ref)) e)
        by (destruct H as [H|[r H]]; exact H).
      destruct (IH He) as (d' & Hd' & Hp'). exists d'. split; [now right|exact Hp']. }
  destruct (bool_decide _); cbn zeta.
  - intros H. apply (Hrest s). now left.
  - destruct (parse (d_value d) (d_loc d) _) as [pd|e'] eqn:Hparse.
    + intros H. eapply Hrest. right. eexists. exact H.
    + cbn. intros [= ->]. exists d. split; [now left|exact Hparse].
Qed.

(** X13. Where errors come from: with [documentExported] false and a
    source that parses, whatever the leading-comments pass throws,
    [parseJavaScript] throws; and whatever [parseJavaScript] throws was
    thrown by the leading-comments pass or by the content parser on a
    comment of the inner- or trailing-comments pass: apart from the
    parser, those two passes and the filter never throw. *)
Theorem errors_from_leading_pass_or_parser data config w ast e :
  documentExported config = false ->
  parseToAst (source data) = Return ast ->
  let run :=
    Fallible.parseJavaScript parse findTarget isClassMethod Ast parseToAst
      discovered exported data config w in
  let leading :=
    walkComments Ast discovered "leadingComments" true ast data
      (Fallible._addComment parse findTarget isClassMethod) (enter w) in
  (fst leading = Throw e -> fst run = Throw e) /\
  (fst run = Throw e ->
   fst leading = Throw e \/
   exists d,
     d ∈ discovered "innerComments"%string ast
         ++ discovered "trailingComments"%string ast /\
     parse (d_value d) (d_loc d) (build_context data (d_path d) (d_nodeLoc d) false)
     = Throw e).
Proof.
  intros Hcfg Hast. cbn zeta.
  unfold Fallible.parseJavaScript, lift_completion, flatMap, strategies.
  rewrite Hcfg, Hast. unfold mbind, M_bind. cbn [mapM]. unfold mbind, M_bind.
  destruct (walkComments _ _ "leadingComments" _ _ _ _ _) as [[ls|e1] s1];
    cbn; [|split; [intros [= ->]; reflexivity | intros [= ->]; now left]].
  split; [discriminate|].
  unfold walkComments.
  pose proof (plain_pass_throws data (discovered "innerComments" ast) s1) as Hinner.
  destruct (mapM (visit data) (discovered "innerComments" ast) s1)
    as [[ns|e2] s2]; cbn in *.
  - pose proof (plain_pass_throws data (discovered "trailingComments" ast) s2)
      as Htrailing.
    destruct (mapM (visit data) (discovered "trailingComments" ast) s2)
      as [[ts|e3] s3]; cbn in *; [discriminate|].
    intros [= ->]. right. destruct (Htrailing e eq_refl) as (d & Hd & Hp).
    exists d. split; [apply elem_of_app; now right | exact Hp].
  - intros [= ->]. right. destruct (Hinner e eq_refl) as (d & Hd & Hp).
    exists d. split; [apply elem_of_app; now left | exact Hp].
Qed.

End ThrowingRun.

Lemma addComment_throws_iff_witness :
  exists e,
    fst (Fallible._addComment Cases.strict_parse Demo.findTarget Demo.isClassMethod
           Demo.data "early" (Demo.at_line 4 0) Demo.programPath (Demo.at_line 5 0)
           false Demo.empty_store)
    = Throw e.
Proof.
  apply (proj2 (proj1 (addComment_throws_iff Cases.strict_parse Demo.findTarget
    Demo.isClassMethod Demo.data "early" (Demo.at_line 4 0) Demo.programPath
    (Demo.at_line 5 0) false Demo.empty_store))).
  split; [apply not_elem_of_empty|]. left. exists "SyntaxError"%string. reflexivity.
Defined.

Lemma errors_from_leading_pass_or_parser_witness :
  fst (walkComments Demo.Ast Demo.discovered "leadingComments" true
         Demo.unsortedAst Demo.data
         (Fallible._addComment Cases.strict_parse Demo.findTarget Demo.isClassMethod)
         (enter empty_world))
  = Throw "SyntaxError" \/
  exists d,
    d ∈ Demo.discovered "innerComments" Demo.unsortedAst
        ++ Demo.discovered "trailingComments" Demo.unsortedAst /\
    Cases.strict_parse (d_value d) (d_loc d)
      (build_context Demo.data (d_path d) (d_nodeLoc d) false)
    = Throw "SyntaxError".
Proof.
  apply (proj2 (errors_from_leading_pass_or_parser Cases.strict_parse
    Demo.findTarget Demo.isClassMethod Demo.Ast (Demo.parseToAst Demo.unsortedAst)
    Demo.discovered Demo.exported Demo.data {| documentExported := false |}
    empty_world Demo.unsortedAst "SyntaxError" eq_refl eq_refl)).
  reflexivity.
Defined.

(** With a parser that rejects the inner comment, the run throws although
    the leading pass returned, and the comment is left marked visited
    with no object made for it. *)
Example parser_failure_in_inner_pass :
  let res :=
    Fallible.parseJavaScript Cases.strict_parse Demo.findTarget Demo.isClassMethod
      Demo.Ast (Demo.parseToAst Demo.unsortedAst) Demo.discovered Demo.exported
      Demo.data {| documentExported := false |} empty_world in
  fst res = Throw "SyntaxError" /\
  length (w_heap (snd res)) = 1%nat /\
  length (w_parse_calls (snd res)) = 2%nat.
Proof. repeat split; reflexivity. Qed.
